(** * Game of Life: the [Avery] generation step of [8-life/life.c]

    A shallow embedding of the transition function [Avery] and of [main],
    together with the properties of the five-region neighbour count.

    The C function receives two boards, [prv] (read) and [nxt] (written).
    Boards are passed by address, so the embedding keeps a store of
    buffers and hands [Avery] two buffer identifiers: the two may alias.
    Every array access is bounds-checked against [HEIGHT] and [WIDTH];
    an access outside the board stops the run with a fault. *)

From Stdlib Require Import ZArith Lia List String Ascii.
From stdpp Require Import base option list gmap strings.

Local Open Scope Z_scope.

(** ** Data model *)

(** Modelled from the spec: the type [board], declared in [liblife.h], which
    is not part of the sources.  The specification describes a dense
    two-dimensional grid of [WIDTH] x [HEIGHT] cells, each 0 (dead) or 1
    (alive).  It is indexed [b[row][col]]: the header comment of [life.c]
    places [A[0][WIDTH-1]] next to [A[1][0]] in memory, so a row has [WIDTH]
    cells, and the loops of [Avery] run the first index up to [HEIGHT].  Rows
    are the elements of the outer list.  Cells are promoted to [int] when
    read, so they are kept as [Z]; a sum of eight cells of a narrow integer
    type stays within [int]. *)
Abbreviation board := (list (list Z)).

(** Buffers are named by identifiers; two equal identifiers are the same
    array. *)
Abbreviation bufid := positive.

Inductive access : Type :=
  | Read (b : bufid) (r c : Z)
  | Write (b : bufid) (r c : Z).

(** The store of boards and, as a ghost component, the accesses performed so
    far (most recent first). *)
Record state : Type := State {
  mem : gmap bufid board;
  trace : list access
}.

(** A run either finishes with a value and a state, or stops at the first
    access that is outside its board. *)
Inductive outcome (A : Type) : Type :=
  | Done (a : A) (s : state)
  | Fault (a : access).
Arguments Done {A} a s.
Arguments Fault {A} a.

Definition M (A : Type) : Type := state → outcome A.

#[global] Instance M_ret : MRet M := λ A a s, Done a s.
#[global] Instance M_bind : MBind M := λ A B f m s,
  match m s with
  | Done a s' => f a s'
  | Fault a => Fault a
  end.

(** [b[r][c]] as a partial read, and the in-place update [b[r][c] = v]. *)
Definition get (b : board) (r c : Z) : option Z :=
  row ← b !! Z.to_nat r; row !! Z.to_nat c.

Definition set (b : board) (r c v : Z) : board :=
  alter (λ row, <[Z.to_nat c := v]> row) (Z.to_nat r) b.

(** The value of a cell, 0 where the board has none. *)
Definition cell (b : board) (r c : Z) : Z := default 0 (get b r c).

(** [(k | n) == 3], the C expression that decides the next state of a cell
    with state [k] and neighbour sum [n]; its value is the [int] 0 or 1. *)
Definition alive_next (k n : Z) : Z := if Z.lor k n =? 3 then 1 else 0.

(** [for (i = lo; i < hi; ++i) body]: the body does not assign [i]. *)
Fixpoint for_from (n : nat) (i : Z) (body : Z → M unit) : M unit :=
  match n with
  | O => mret tt
  | S n' => body i;; for_from n' (i + 1) body
  end.

Definition for_range (lo hi : Z) (body : Z → M unit) : M unit :=
  for_from (Z.to_nat (hi - lo)) lo body.

Section Life.

(** [WIDTH] and [HEIGHT] are macros of [liblife.h]; they are fixed for a
    build and taken as parameters here. *)
Variables WIDTH HEIGHT : Z.

Definition in_bounds (r c : Z) : bool :=
  (0 <=? r) && (r <? HEIGHT) && (0 <=? c) && (c <? WIDTH).

(** A board of the declared dimensions: [HEIGHT] rows of [WIDTH] cells. *)
Definition shape (b : board) : Prop :=
  length b = Z.to_nat HEIGHT ∧ Forall (λ row, length row = Z.to_nat WIDTH) b.

(** Every cell is 0 or 1. *)
Definition binary (b : board) : Prop :=
  Forall (Forall (λ v, v = 0 ∨ v = 1)) b.

(** The read [p[r][c]]. *)
Definition rd (p : bufid) (r c : Z) : M Z := λ s,
  if in_bounds r c then
    match mem s !! p ≫= (λ b, get b r c) with
    | Some v => Done v (State (mem s) (Read p r c :: trace s))
    | None => Fault (Read p r c)
    end
  else Fault (Read p r c).

(** The write [q[r][c] = v]. *)
Definition wr (q : bufid) (r c v : Z) : M unit := λ s,
  if in_bounds r c then
    match mem s !! q with
    | Some b =>
        if get b r c is Some _ then
          Done tt (State (<[q := set b r c v]> (mem s)) (Write q r c :: trace s))
        else Fault (Write q r c)
    | None => Fault (Write q r c)
    end
  else Fault (Write q r c).

(** [p[r1][c1] + p[r2][c2] + ...], the operands read from left to right. *)
Fixpoint rd_sum (p : bufid) (cells : list (Z * Z)) : M Z :=
  match cells with
  | [] => mret 0
  | (r, c) :: rest => v ← rd p r c; n ← rd_sum p rest; mret (v + n)
  end.

(** [void Avery(board prv, board nxt)], statement by statement. *)
Definition Avery (prv nxt : bufid) : M unit :=
  n ← rd_sum prv [(0, 1); (1, 1); (1, 0)];
  k ← rd prv 0 0;
  wr nxt 0 0 (alive_next k n);;

  n ← rd_sum prv [(0, WIDTH-2); (1, WIDTH-2); (1, WIDTH-1)];
  k ← rd prv 0 (WIDTH-1);
  wr nxt 0 (WIDTH-1) (alive_next k n);;

  n ← rd_sum prv [(HEIGHT-2, 0); (HEIGHT-2, 1); (HEIGHT-1, 1)];
  k ← rd prv (WIDTH-1) 0;
  wr nxt (WIDTH-1) 0 (alive_next k n);;

  n ← rd_sum prv [(HEIGHT-2, WIDTH-2); (HEIGHT-1, WIDTH-2); (HEIGHT-2, WIDTH-1)];
  k ← rd prv (HEIGHT-1) (WIDTH-1);
  wr nxt (HEIGHT-1) (WIDTH-1) (alive_next k n);;

  for_range 1 (HEIGHT-1) (λ i,
    for_range 1 (WIDTH-1) (λ j,
      k ← rd prv i j;
      n ← rd_sum prv [(i-1, j-1); (i-1, j); (i-1, j+1);
                      (i, j-1); (i, j+1); (i+1, j-1);
                      (i+1, j); (i+1, j+1)];
      wr nxt i j (alive_next k n)));;

  for_range 1 (HEIGHT-1) (λ i,
    n ← rd_sum prv [(i-1, WIDTH-1); (i+1, WIDTH-1); (i+1, WIDTH-2);
                    (i-1, WIDTH-2); (i, WIDTH-2)];
    k ← rd prv i (WIDTH-1);
    wr nxt i (WIDTH-1) (alive_next k n);;

    n ← rd_sum prv [(i-1, 1); (i+1, 1); (i, 1); (i-1, 0); (i+1, 0)];
    k ← rd prv i 0;
    wr nxt i 0 (alive_next k n));;

  for_range 1 (WIDTH-1) (λ j,
    n ← rd_sum prv [(HEIGHT-1, j-1); (HEIGHT-1, j+1); (HEIGHT-2, j);
                    (HEIGHT-2, j-1); (HEIGHT-2, j+1)];
    k ← rd prv (HEIGHT-1) j;
    wr nxt (HEIGHT-1) j (alive_next k n);;

    n ← rd_sum prv [(1, j-1); (1, j+1); (1, j); (0, j-1); (0, j+1)];
    k ← rd prv 0 j;
    wr nxt 0 j (alive_next k n)).

End Life.

(** ** The naive reference

    The reference follows the rule as the specification words it: the live
    neighbours of a cell are counted over the eight offsets, each behind an
    explicit bounds check, and B3/S23 is applied to the count. *)

Section Naive.

Variables WIDTH HEIGHT : Z.

(** A neighbour's contribution: its value when it is on the board. *)
Definition naive_nb (b : board) (r c : Z) : Z :=
  if in_bounds WIDTH HEIGHT r c then cell b r c else 0.

Definition naive_count (b : board) (r c : Z) : Z :=
  naive_nb b (r-1) (c-1) + naive_nb b (r-1) c + naive_nb b (r-1) (c+1)
  + naive_nb b r (c-1) + naive_nb b r (c+1)
  + naive_nb b (r+1) (c-1) + naive_nb b (r+1) c + naive_nb b (r+1) (c+1).

(** B3/S23: a live cell survives with two or three live neighbours, a dead
    cell is born with exactly three. *)
Definition b3s23 (alive : bool) (n : Z) : bool :=
  if alive then (n =? 2) || (n =? 3) else (n =? 3).

Definition naive_cell (b : board) (r c : Z) : Z :=
  if b3s23 (cell b r c =? 1) (naive_count b r c) then 1 else 0.

Definition naive (b : board) : board :=
  (λ r, (λ c, naive_cell b r c) <$> seqZ 0 WIDTH) <$> seqZ 0 HEIGHT.

End Naive.

(** ** Specifications of runs *)

(** Total correctness: from every state satisfying [P] the run finishes, in
    a state satisfying [Q]. *)
Definition hoare {A} (P : state → Prop) (m : M A) (Q : A → state → Prop) : Prop :=
  ∀ s, P s → ∃ a s', m s = Done a s' ∧ Q a s'.

(** The board a finished run leaves in buffer [q]. *)
Definition result_board {A} (q : bufid) (o : outcome A) : option board :=
  match o with
  | Done _ s => mem s !! q
  | Fault _ => None
  end.

(** The cells written by a finished run, oldest first. *)
Definition writes_of (t : list access) : list (Z * Z) :=
  omap (λ a, match a with Write _ r c => Some (r, c) | Read _ _ _ => None end)
       (rev t).

Definition written {A} (o : outcome A) : list (Z * Z) :=
  match o with
  | Done _ s => writes_of (trace s)
  | Fault _ => []
  end.

(** How many times a cell occurs in a list of written cells. *)
Definition times (rc : Z * Z) (l : list (Z * Z)) : nat :=
  length (filter (λ x, x = rc) l).

(** The sum the reads of [rd_sum] return on board [b], and the accesses they
    leave in the trace. *)
Definition sum_cells (b : board) (cells : list (Z * Z)) : Z :=
  foldr (λ rc acc, cell b rc.1 rc.2 + acc) 0 cells.

Definition reads_of (p : bufid) (cells : list (Z * Z)) : list access :=
  rev ((λ rc, Read p rc.1 rc.2) <$> cells).

Section Invariants.

Variables WIDTH HEIGHT : Z.
Variables prv nxt : bufid.

(** An access that stays on the board. *)
Definition access_ok (a : access) : Prop :=
  match a with
  | Read _ r c | Write _ r c => 0 ≤ r < HEIGHT ∧ 0 ≤ c < WIDTH
  end.

Definition cells_ok (cells : list (Z * Z)) : Prop :=
  Forall (λ rc, 0 ≤ rc.1 < HEIGHT ∧ 0 ≤ rc.2 < WIDTH) cells.

(** Memory safety: both buffers hold boards of the declared shape, and every
    access made since the trace was [t0] is on the board; [must] lists
    accesses known to have been made. *)
Definition safe (t0 must : list access) (s : state) : Prop :=
  (∃ bp, mem s !! prv = Some bp ∧ shape WIDTH HEIGHT bp) ∧
  (∃ bq, mem s !! nxt = Some bq ∧ shape WIDTH HEIGHT bq) ∧
  ∃ acc, trace s = acc ++ t0 ∧ Forall access_ok acc ∧ must ⊆ acc.

(** Functional progress: [prv] still holds [B], only [nxt] differs from the
    initial store [m0], and every cell of the board in [D] already holds
    the value the naive reference gives it. *)
Definition computed (B : board) (m0 : gmap bufid board)
    (D : Z → Z → Prop) (s : state) : Prop :=
  mem s !! prv = Some B ∧
  ∃ N, mem s = <[nxt := N]> m0 ∧ shape WIDTH HEIGHT N ∧
       ∀ r c, 0 ≤ r < HEIGHT → 0 ≤ c < WIDTH → D r c →
              get N r c = Some (naive_cell WIDTH HEIGHT B r c).

(** The regions of the board: the corners a run has dealt with after the
    four corner statements (the bottom-left one only on a square board), the
    interior, the left and right edges, the top and bottom edges. *)
Definition corner_cells (r c : Z) : Prop :=
  (r = 0 ∧ (c = 0 ∨ c = WIDTH-1)) ∨ (r = HEIGHT-1 ∧ c = WIDTH-1)
  ∨ (WIDTH = HEIGHT ∧ r = HEIGHT-1 ∧ c = 0).

Definition inner_cells (r c : Z) : Prop :=
  1 ≤ r < HEIGHT-1 ∧ 1 ≤ c < WIDTH-1.

Definition side_cells (r c : Z) : Prop :=
  1 ≤ r < HEIGHT-1 ∧ (c = 0 ∨ c = WIDTH-1).

Definition end_cells (r c : Z) : Prop :=
  (r = 0 ∨ r = HEIGHT-1) ∧ 1 ≤ c < WIDTH-1.

(** Tiling progress: since the trace was [t0], the cells in [D] have been
    written exactly once and no other cell has been written. *)
Definition tiled (t0 : list access) (D : Z → Z → Prop) (s : state) : Prop :=
  (∃ bp, mem s !! prv = Some bp ∧ shape WIDTH HEIGHT bp) ∧
  (∃ bq, mem s !! nxt = Some bq ∧ shape WIDTH HEIGHT bq) ∧
  ∃ acc, trace s = acc ++ t0 ∧
         ∀ r c, (D r c → times (r, c) (writes_of acc) = 1%nat) ∧
                (¬ D r c → times (r, c) (writes_of acc) = 0%nat).

End Invariants.

(** From every state satisfying [P] the run stops with a fault at access [a]. *)
Definition faults {A} (P : state → Prop) (m : M A) (a : access) : Prop :=
  ∀ s, P s → m s = Fault a.

(** The content of cell [(r, c)] of buffer [q], if there is one. *)
Definition cell_at (q : bufid) (r c : Z) (s : state) : option Z :=
  mem s !! q ≫= λ b, get b r c.

(** A run that, when it finishes, leaves cell [(r, c)] of buffer [q] as it
    found it. *)
Definition keeps {A} (q : bufid) (r c : Z) (m : M A) : Prop :=
  ∀ s a s', m s = Done a s' → cell_at q r c s' = cell_at q r c s.

(** A run that changes no buffer other than [q]. *)
Definition frames {A} (q : bufid) (m : M A) : Prop :=
  ∀ s a s', m s = Done a s' → ∀ r, r ≠ q → mem s' !! r = mem s !! r.

(** ** Example boards, three columns by four rows *)

Definition dead34 : board := [[0;0;0]; [0;0;0]; [0;0;0]; [0;0;0]].

(** Three live cells around the bottom-left corner. *)
Definition ell34 : board := [[0;0;0]; [0;0;0]; [1;1;0]; [0;1;0]].

(** One live cell, in the top-left corner. *)
Definition single34 : board := [[1;0;0]; [0;0;0]; [0;0;0]; [0;0;0]].

(** One live cell, in the top-right corner. *)
Definition single34' : board := [[0;0;1]; [0;0;0]; [0;0;0]; [0;0;0]].

(** A buffer left over from an earlier generation: bottom-left corner alive. *)
Definition stale34 : board := [[0;0;0]; [0;0;0]; [0;0;0]; [1;0;0]].

(** Four columns by three rows. *)
Definition dead43 : board := [[0;0;0;0]; [0;0;0;0]; [0;0;0;0]].
Definition corner43 : board := [[1;0;0;0]; [0;0;0;0]; [0;0;0;0]].

(** Three columns by four rows, every cell alive. *)
Definition full34 : board := [[1;1;1]; [1;1;1]; [1;1;1]; [1;1;1]].

(** Three by three: a vertical line of three live cells, and an empty board. *)
Definition blinker33 : board := [[0;1;0]; [0;1;0]; [0;1;0]].
Definition dead33 : board := [[0;0;0]; [0;0;0]; [0;0;0]].

(** The number of live cells of a 0/1 board. *)
Definition live_count (b : board) : Z := foldr Z.add 0 (concat b).

(** A store with [prv] in buffer 1 and [nxt] in buffer 2, and no access yet. *)
Definition store (prv nxt : board) : state :=
  State (<[1%positive := prv]> (<[2%positive := nxt]> ∅)) [].

(** ** The command line *)

(** Modelled from the spec: [add_method] and [run_game] belong to [liblife],
    which is not part of the sources; [main] registers one method and runs
    the game, and both calls return.  They are recorded as events, with their
    arguments, next to the print to standard error. *)
Inductive event : Type :=
  | Stderr (msg : string)
  | AddMethod (name : string)
  | RunGame (no_window : bool).

(** The exit statuses of [stdlib.h]. *)
Definition EXIT_SUCCESS : Z := 0.
Definition EXIT_FAILURE : Z := 1.

(** [strcmp]: zero exactly when the two strings are equal. *)
Definition strcmp (a b : string) : Z :=
  match String.compare a b with
  | Eq => 0
  | Lt => -1
  | Gt => 1
  end.

Definition LF : string := String (ascii_of_nat 10) EmptyString.
Definition TAB : string := String (ascii_of_nat 9) EmptyString.

(** ["Usage: %s [-nw]\n\t-nw  No window\n"] applied to [argv[0]]. *)
Definition usage (argv0 : string) : string :=
  ("Usage: " ++ argv0 ++ " [-nw]" ++ LF ++ TAB ++ "-nw  No window" ++ LF)%string.

(** [int main(int argc, char* argv[])]: [argc] is the length of [argv]; the
    result is the list of events in order and the exit status. *)
Definition main (argv : list string) : list event * Z :=
  let argc := Z.of_nat (length argv) in
  let arg i := default EmptyString (argv !! i) in
  if (argc >? 2) || ((argc =? 2) && negb (0 =? strcmp (arg 1%nat) "-nw")) then
    ([Stderr (usage (arg 0%nat))], EXIT_FAILURE)
  else
    ([AddMethod "Avery";
      RunGame ((argc =? 2) && (0 =? strcmp (arg 1%nat) "-nw"))],
     EXIT_SUCCESS).

(** ** Boards: reads, updates and shape *)

Section BoardFacts.

Variables WIDTH HEIGHT : Z.

Lemma in_bounds_true r c :
  0 ≤ r < HEIGHT → 0 ≤ c < WIDTH → in_bounds WIDTH HEIGHT r c = true.
Proof. unfold in_bounds. intros. repeat (apply andb_true_intro; split); lia. Qed.

Lemma in_bounds_false r c :
  ¬ (0 ≤ r < HEIGHT ∧ 0 ≤ c < WIDTH) → in_bounds WIDTH HEIGHT r c = false.
Proof.
  unfold in_bounds. intros Hn.
  destruct (0 <=? r) eqn:E1, (r <? HEIGHT) eqn:E2,
           (0 <=? c) eqn:E3, (c <? WIDTH) eqn:E4; simpl; try reflexivity.
  exfalso. apply Hn. lia.
Qed.

Lemma in_bounds_spec r c :
  in_bounds WIDTH HEIGHT r c = true ↔ 0 ≤ r < HEIGHT ∧ 0 ≤ c < WIDTH.
Proof.
  split.
  - intros Hb. destruct (decide (0 ≤ r < HEIGHT ∧ 0 ≤ c < WIDTH)) as [|Hn]; [done|].
    rewrite (in_bounds_false _ _ Hn) in Hb. discriminate.
  - intros [? ?]. by apply in_bounds_true.
Qed.

Lemma get_shape b r c :
  shape WIDTH HEIGHT b → 0 ≤ r < HEIGHT → 0 ≤ c < WIDTH →
  get b r c = Some (cell b r c).
Proof.
  intros [Hlen Hrows] Hr Hc. unfold cell, get.
  destruct (lookup_lt_is_Some_2 b (Z.to_nat r)) as [row Hrow]; [lia|].
  rewrite Hrow. simpl.
  assert (length row = Z.to_nat WIDTH) as Hw.
  { rewrite Forall_forall in Hrows. apply Hrows. eapply list_elem_of_lookup_2, Hrow. }
  destruct (lookup_lt_is_Some_2 row (Z.to_nat c)) as [v Hv]; [lia|].
  by rewrite Hv.
Qed.

Lemma shape_set b r c v : shape WIDTH HEIGHT b → shape WIDTH HEIGHT (set b r c v).
Proof.
  intros [Hlen Hrows]. unfold set. split.
  - by rewrite length_alter.
  - rewrite Forall_lookup in Hrows. apply Forall_lookup. intros i row Hrow.
    destruct (decide (i = Z.to_nat r)) as [->|Hne].
    + rewrite list_lookup_alter_eq in Hrow.
      destruct (b !! Z.to_nat r) as [row0|] eqn:E; simplify_eq/=.
      rewrite length_insert. eauto.
    + rewrite list_lookup_alter_ne in Hrow by done. eauto.
Qed.

Lemma get_set_eq b r c v :
  shape WIDTH HEIGHT b → 0 ≤ r < HEIGHT → 0 ≤ c < WIDTH →
  get (set b r c v) r c = Some v.
Proof.
  intros [Hlen Hrows] Hr Hc. unfold get, set.
  rewrite list_lookup_alter_eq.
  destruct (lookup_lt_is_Some_2 b (Z.to_nat r)) as [row Hrow]; [lia|].
  rewrite Hrow. simpl.
  assert (length row = Z.to_nat WIDTH) as Hw.
  { rewrite Forall_forall in Hrows. apply Hrows. eapply list_elem_of_lookup_2, Hrow. }
  apply list_lookup_insert_eq. lia.
Qed.

Lemma get_set_ne b r c v r' c' :
  0 ≤ r → 0 ≤ c → 0 ≤ r' → 0 ≤ c' → (r', c') ≠ (r, c) →
  get (set b r c v) r' c' = get b r' c'.
Proof.
  intros Hr Hc Hr' Hc' Hne. unfold get, set.
  destruct (decide (Z.to_nat r' = Z.to_nat r)) as [Heq|Hr_ne].
  - rewrite Heq, list_lookup_alter_eq.
    destruct (b !! Z.to_nat r) as [row|]; simpl; [|done].
    apply list_lookup_insert_ne. intros Hceq.
    apply Hne. f_equal; lia.
  - by rewrite list_lookup_alter_ne.
Qed.

(** Two boards of the declared shape with equal cells are equal. *)
Lemma board_ext b1 b2 :
  shape WIDTH HEIGHT b1 → shape WIDTH HEIGHT b2 →
  (∀ r c, 0 ≤ r < HEIGHT → 0 ≤ c < WIDTH → get b1 r c = get b2 r c) →
  b1 = b2.
Proof.
  intros [Hl1 Hr1] [Hl2 Hr2] Hget.
  apply list_eq_same_length with (Z.to_nat HEIGHT); [done..|].
  intros i row1 row2 Hi Hrow1 Hrow2.
  assert (length row1 = Z.to_nat WIDTH) as Hw1.
  { rewrite Forall_lookup in Hr1. eauto. }
  assert (length row2 = Z.to_nat WIDTH) as Hw2.
  { rewrite Forall_lookup in Hr2. eauto. }
  apply list_eq_same_length with (Z.to_nat WIDTH); [done..|].
  intros j v1 v2 Hj Hv1 Hv2.
  specialize (Hget (Z.of_nat i) (Z.of_nat j)).
  unfold get in Hget. rewrite !Nat2Z.id, Hrow1, Hrow2 in Hget. simpl in Hget.
  rewrite Hv1, Hv2 in Hget.
  assert (Some v1 = Some v2) by (apply Hget; lia). congruence.
Qed.

Lemma cell_binary b r c : binary b → cell b r c = 0 ∨ cell b r c = 1.
Proof.
  intros Hb. unfold cell, get.
  destruct (b !! Z.to_nat r) as [row|] eqn:Hrow; simpl; [|by left].
  destruct (row !! Z.to_nat c) as [v|] eqn:Hv; simpl; [|by left].
  unfold binary in Hb. rewrite Forall_lookup in Hb.
  specialize (Hb _ _ Hrow). rewrite Forall_lookup in Hb. exact (Hb _ _ Hv).
Qed.

End BoardFacts.

(** ** Rules for runs *)

Lemma hoare_ret {A} (a : A) (P : state → Prop) (Q : A → state → Prop) :
  (∀ s, P s → Q a s) → hoare P (mret a) Q.
Proof. intros HPQ s Hs. exists a, s. split; [done|]. by apply HPQ. Qed.

Lemma hoare_bind {A B} (m : M A) (f : A → M B) P R Q :
  hoare P m R → (∀ a, hoare (R a) (f a) Q) → hoare P (m ≫= f) Q.
Proof.
  intros Hm Hf s Hs. destruct (Hm s Hs) as (a & s1 & Hrun & HR).
  destruct (Hf a s1 HR) as (b & s2 & Hrun2 & HQ).
  exists b, s2. split; [|done].
  unfold mbind, M_bind. by rewrite Hrun.
Qed.

Lemma hoare_conseq {A} (m : M A) (P P' : state → Prop) (Q Q' : A → state → Prop) :
  hoare P' m Q' → (∀ s, P s → P' s) → (∀ a s, Q' a s → Q a s) → hoare P m Q.
Proof.
  intros Hm HP HQ s Hs. destruct (Hm s (HP s Hs)) as (a & s' & Hrun & Hq).
  exists a, s'. eauto.
Qed.

(** A statement made of three steps, followed by the rest of the block. *)
Lemma hoare_seq3 {A B C D} (m1 : M A) (m2 : A → M B) (m3 : A → B → M C)
    (f : C → M D) P R Q :
  hoare P (a ← m1; b ← m2 a; m3 a b) R →
  (∀ x, hoare (R x) (f x) Q) →
  hoare P (a ← m1; b ← m2 a; m3 a b ≫= f) Q.
Proof.
  intros Hm Hf s Hs. destruct (Hm s Hs) as (c & s1 & Hrun & HR).
  destruct (Hf c s1 HR) as (d & s2 & Hrun2 & HQ).
  exists d, s2. split; [|done].
  unfold mbind, M_bind in *.
  destruct (m1 s) as [a sa|]; [|done].
  destruct (m2 a sa) as [b sb|]; [|done].
  by rewrite Hrun.
Qed.

Lemma hoare_for_from (I : Z → state → Prop) body n lo :
  (∀ i, lo ≤ i < lo + Z.of_nat n → hoare (I i) (body i) (λ _, I (i + 1))) →
  hoare (I lo) (for_from n lo body) (λ _, I (lo + Z.of_nat n)).
Proof.
  revert lo. induction n as [|n IH]; intros lo Hbody.
  - simpl. apply hoare_ret. intros s. by rewrite Z.add_0_r.
  - simpl. eapply hoare_bind.
    + apply Hbody. lia.
    + intros ?. cbv beta. eapply hoare_conseq.
      * apply (IH (lo + 1)). intros i Hi. apply Hbody. lia.
      * done.
      * intros ? s. cbv beta. by replace (lo + 1 + Z.of_nat n) with (lo + Z.of_nat (S n)) by lia.
Qed.

(** The loop rule: an invariant indexed by the loop variable. *)
Lemma hoare_for (I : Z → state → Prop) lo hi body :
  lo ≤ hi →
  (∀ i, lo ≤ i < hi → hoare (I i) (body i) (λ _, I (i + 1))) →
  hoare (I lo) (for_range lo hi body) (λ _, I hi).
Proof.
  intros Hle Hbody. unfold for_range.
  eapply hoare_conseq.
  - apply (hoare_for_from I body (Z.to_nat (hi - lo)) lo).
    intros i Hi. apply Hbody. lia.
  - done.
  - intros ? s. cbv beta. by replace (lo + Z.of_nat (Z.to_nat (hi - lo))) with hi by lia.
Qed.

(** ** Single accesses *)

Section Accesses.

Variables WIDTH HEIGHT : Z.

Lemma rd_run p r c b s :
  0 ≤ r < HEIGHT → 0 ≤ c < WIDTH →
  mem s !! p = Some b → shape WIDTH HEIGHT b →
  rd WIDTH HEIGHT p r c s = Done (cell b r c) (State (mem s) (Read p r c :: trace s)).
Proof.
  intros Hr Hc Hp Hb. unfold rd.
  rewrite in_bounds_true by done. rewrite Hp. simpl.
  by rewrite (get_shape WIDTH HEIGHT).
Qed.

Lemma rd_sum_run p cells b s :
  cells_ok WIDTH HEIGHT cells →
  mem s !! p = Some b → shape WIDTH HEIGHT b →
  rd_sum WIDTH HEIGHT p cells s =
    Done (sum_cells b cells) (State (mem s) (reads_of p cells ++ trace s)).
Proof.
  intros Hok Hp Hb. revert s Hp. unfold cells_ok in Hok.
  induction Hok as [|[r c] rest [Hr Hc] Hok IH]; intros s Hp.
  - simpl. by destruct s.
  - simpl. unfold mbind, M_bind.
    rewrite (rd_run p r c b) by done.
    rewrite IH by done. simpl. unfold mret, M_ret. do 2 f_equal.
    unfold reads_of. simpl. by rewrite <- app_assoc.
Qed.

Lemma wr_run q r c v b s :
  0 ≤ r < HEIGHT → 0 ≤ c < WIDTH →
  mem s !! q = Some b → shape WIDTH HEIGHT b →
  wr WIDTH HEIGHT q r c v s =
    Done tt (State (<[q := set b r c v]> (mem s)) (Write q r c :: trace s)).
Proof.
  intros Hr Hc Hq Hb. unfold wr.
  rewrite in_bounds_true by done. rewrite Hq.
  by rewrite (get_shape WIDTH HEIGHT).
Qed.

End Accesses.

(** ** Memory safety of [Avery] *)

Ltac cells_ok_tac :=
  unfold cells_ok; repeat constructor; simpl; lia.

Section Safety.

Variables WIDTH HEIGHT : Z.
Variables prv nxt : bufid.
Variable t0 : list access.

Lemma safe_weaken must must' s :
  must' ⊆ must →
  safe WIDTH HEIGHT prv nxt t0 must s → safe WIDTH HEIGHT prv nxt t0 must' s.
Proof.
  intros Hsub (Hp & Hq & acc & Ht & Hok & Hmust).
  split; [done|]. split; [done|]. exists acc. split; [done|]. split; [done|].
  by etrans.
Qed.

Lemma reads_of_ok p cells :
  cells_ok WIDTH HEIGHT cells → Forall (access_ok WIDTH HEIGHT) (reads_of p cells).
Proof.
  intros Hok. unfold reads_of. apply Forall_rev, Forall_fmap.
  eapply Forall_impl; [exact Hok|]. by intros [r c].
Qed.

(** After any of the two buffers is written on the board, both still hold
    boards of the declared shape. *)
Lemma shape_after_write (m : gmap bufid board) p b r c v :
  (∃ bp, m !! p = Some bp ∧ shape WIDTH HEIGHT bp) →
  m !! nxt = Some b → shape WIDTH HEIGHT b →
  ∃ bp, <[nxt := set b r c v]> m !! p = Some bp ∧ shape WIDTH HEIGHT bp.
Proof.
  intros (bp & Hp & Hsp) Hq Hsq.
  destruct (decide (nxt = p)) as [->|Hne].
  - exists (set b r c v). rewrite lookup_insert_eq. split; [done|]. by apply shape_set.
  - exists bp. by rewrite lookup_insert_ne.
Qed.

(** [n = sum; nxt[r][c] = (prv[r][c] | n) == 3;] *)
Lemma stmt_safe cells r c must :
  cells_ok WIDTH HEIGHT cells → 0 ≤ r < HEIGHT → 0 ≤ c < WIDTH →
  hoare (safe WIDTH HEIGHT prv nxt t0 must)
        (n ← rd_sum WIDTH HEIGHT prv cells;
         k ← rd WIDTH HEIGHT prv r c;
         wr WIDTH HEIGHT nxt r c (alive_next k n))
        (λ _, safe WIDTH HEIGHT prv nxt t0 (Write nxt r c :: Read prv r c :: must)).
Proof.
  intros Hcells Hr Hc s ((bp & Hp & Hsp) & (bq & Hq & Hsq) & acc & Ht & Hok & Hmust).
  unfold mbind, M_bind.
  rewrite (rd_sum_run WIDTH HEIGHT prv cells bp) by done.
  rewrite (rd_run WIDTH HEIGHT prv r c bp) by done.
  rewrite (wr_run WIDTH HEIGHT nxt r c _ bq) by done.
  eexists _, _. split; [reflexivity|]. simpl.
  split; [eapply shape_after_write; eauto|].
  split; [eapply shape_after_write; eauto|].
  exists (Write nxt r c :: Read prv r c :: reads_of prv cells ++ acc).
  split; [simpl; by rewrite Ht, <- ?app_assoc|]. split.
  - apply Forall_cons_2; [by simpl|]. apply Forall_cons_2; [by simpl|].
    apply Forall_app_2; [by apply reads_of_ok|done].
  - intros x. specialize (Hmust x). rewrite !elem_of_cons, elem_of_app. tauto.
Qed.

Lemma stmt_safe_keep cells r c must :
  cells_ok WIDTH HEIGHT cells → 0 ≤ r < HEIGHT → 0 ≤ c < WIDTH →
  hoare (safe WIDTH HEIGHT prv nxt t0 must)
        (n ← rd_sum WIDTH HEIGHT prv cells;
         k ← rd WIDTH HEIGHT prv r c;
         wr WIDTH HEIGHT nxt r c (alive_next k n))
        (λ _, safe WIDTH HEIGHT prv nxt t0 must).
Proof.
  intros Hcells Hr Hc. eapply hoare_conseq.
  - by apply (stmt_safe cells r c must).
  - done.
  - intros ? s. apply safe_weaken. intros x Hx. rewrite !elem_of_cons. tauto.
Qed.

(** [k = prv[r][c]; n = sum; nxt[r][c] = (k | n) == 3;] *)
Lemma stmt_safe_interior cells r c must :
  cells_ok WIDTH HEIGHT cells → 0 ≤ r < HEIGHT → 0 ≤ c < WIDTH →
  hoare (safe WIDTH HEIGHT prv nxt t0 must)
        (k ← rd WIDTH HEIGHT prv r c;
         n ← rd_sum WIDTH HEIGHT prv cells;
         wr WIDTH HEIGHT nxt r c (alive_next k n))
        (λ _, safe WIDTH HEIGHT prv nxt t0 must).
Proof.
  intros Hcells Hr Hc s ((bp & Hp & Hsp) & (bq & Hq & Hsq) & acc & Ht & Hok & Hmust).
  unfold mbind, M_bind.
  rewrite (rd_run WIDTH HEIGHT prv r c bp) by done.
  rewrite (rd_sum_run WIDTH HEIGHT prv cells bp) by done.
  rewrite (wr_run WIDTH HEIGHT nxt r c _ bq) by done.
  eexists _, _. split; [reflexivity|]. simpl.
  split; [eapply shape_after_write; eauto|].
  split; [eapply shape_after_write; eauto|].
  exists (Write nxt r c :: reads_of prv cells ++ Read prv r c :: acc).
  split; [simpl; by rewrite Ht, <- ?app_assoc|]. split.
  - apply Forall_cons_2; [by simpl|].
    apply Forall_app_2; [by apply reads_of_ok|].
    apply Forall_cons_2; [by simpl|done].
  - intros x Hx. specialize (Hmust x Hx).
    rewrite elem_of_cons, elem_of_app, elem_of_cons. tauto.
Qed.

Lemma Avery_safe_from_two :
  2 ≤ WIDTH ≤ HEIGHT →
  hoare (safe WIDTH HEIGHT prv nxt t0 [])
        (Avery WIDTH HEIGHT prv nxt)
        (λ _, safe WIDTH HEIGHT prv nxt t0
                [Write nxt (WIDTH-1) 0; Read prv (WIDTH-1) 0]).
Proof.
  intros HWH. unfold Avery.
  eapply hoare_seq3; [apply stmt_safe_keep; [cells_ok_tac|lia..]|intros ?; cbv beta].
  eapply hoare_seq3; [apply stmt_safe_keep; [cells_ok_tac|lia..]|intros ?; cbv beta].
  eapply hoare_seq3; [apply stmt_safe; [cells_ok_tac|lia..]|intros ?; cbv beta].
  eapply hoare_seq3; [apply stmt_safe_keep; [cells_ok_tac|lia..]|intros ?; cbv beta].
  eapply hoare_bind.
  { apply (hoare_for (λ _, safe WIDTH HEIGHT prv nxt t0 _)); [lia|].
    intros i Hi.
    apply (hoare_for (λ _, safe WIDTH HEIGHT prv nxt t0 _)); [lia|].
    intros j Hj. apply stmt_safe_interior; [cells_ok_tac|lia..]. }
  intros ?; cbv beta.
  eapply hoare_bind.
  { apply (hoare_for (λ _, safe WIDTH HEIGHT prv nxt t0 _)); [lia|].
    intros i Hi.
    eapply hoare_seq3; [apply stmt_safe_keep; [cells_ok_tac|lia..]|intros ?; cbv beta].
    apply stmt_safe_keep; [cells_ok_tac|lia..]. }
  intros ?; cbv beta.
  apply (hoare_for (λ _, safe WIDTH HEIGHT prv nxt t0 _)); [lia|].
  intros j Hj.
  eapply hoare_seq3; [apply stmt_safe_keep; [cells_ok_tac|lia..]|intros ?; cbv beta].
  apply stmt_safe_keep; [cells_ok_tac|lia..].
Qed.

Lemma Avery_safe :
  3 ≤ WIDTH ≤ HEIGHT →
  hoare (safe WIDTH HEIGHT prv nxt t0 [])
        (Avery WIDTH HEIGHT prv nxt)
        (λ _, safe WIDTH HEIGHT prv nxt t0
                [Write nxt (WIDTH-1) 0; Read prv (WIDTH-1) 0]).
Proof. intros HWH. apply Avery_safe_from_two. lia. Qed.

End Safety.

(** ** The rule and the naive reference *)

(** The bit trick agrees with B3/S23 on a 0/1 cell and a count up to 8. *)
Lemma alive_next_rule k n :
  k = 0 ∨ k = 1 → 0 ≤ n ≤ 8 →
  alive_next k n = if b3s23 (k =? 1) n then 1 else 0.
Proof.
  intros Hk Hn.
  assert (n = 0 ∨ n = 1 ∨ n = 2 ∨ n = 3 ∨ n = 4 ∨ n = 5 ∨ n = 6 ∨ n = 7 ∨ n = 8)
    as Hcases by lia.
  destruct Hk as [-> | ->];
    repeat (destruct Hcases as [-> | Hcases]; [reflexivity|]);
    subst n; reflexivity.
Qed.

Section NaiveFacts.

Variables WIDTH HEIGHT : Z.

Lemma naive_nb_binary b r c :
  binary b → naive_nb WIDTH HEIGHT b r c = 0 ∨ naive_nb WIDTH HEIGHT b r c = 1.
Proof.
  intros Hb. unfold naive_nb.
  destruct (in_bounds WIDTH HEIGHT r c); [by apply cell_binary | by left].
Qed.

Lemma naive_count_bounds b r c :
  binary b → 0 ≤ naive_count WIDTH HEIGHT b r c ≤ 8.
Proof.
  intros Hb. unfold naive_count.
  pose proof (naive_nb_binary b (r-1) (c-1) Hb).
  pose proof (naive_nb_binary b (r-1) c Hb).
  pose proof (naive_nb_binary b (r-1) (c+1) Hb).
  pose proof (naive_nb_binary b r (c-1) Hb).
  pose proof (naive_nb_binary b r (c+1) Hb).
  pose proof (naive_nb_binary b (r+1) (c-1) Hb).
  pose proof (naive_nb_binary b (r+1) c Hb).
  pose proof (naive_nb_binary b (r+1) (c+1) Hb).
  lia.
Qed.

Lemma alive_next_naive b r c :
  binary b →
  alive_next (cell b r c) (naive_count WIDTH HEIGHT b r c)
  = naive_cell WIDTH HEIGHT b r c.
Proof.
  intros Hb. unfold naive_cell.
  apply alive_next_rule; [by apply cell_binary | by apply naive_count_bounds].
Qed.

Lemma shape_naive b : shape WIDTH HEIGHT (naive WIDTH HEIGHT b).
Proof.
  unfold naive. split.
  - by rewrite length_fmap, length_seqZ.
  - apply Forall_fmap, Forall_forall. intros r _. simpl.
    by rewrite length_fmap, length_seqZ.
Qed.

Lemma get_naive b r c :
  0 ≤ r < HEIGHT → 0 ≤ c < WIDTH →
  get (naive WIDTH HEIGHT b) r c = Some (naive_cell WIDTH HEIGHT b r c).
Proof.
  intros Hr Hc. unfold get, naive.
  rewrite list_lookup_fmap, lookup_seqZ_lt by lia. simpl.
  rewrite list_lookup_fmap, lookup_seqZ_lt by lia. simpl.
  do 2 f_equal; lia.
Qed.

End NaiveFacts.

(** ** Regions: tactics for implications between sets of cells

    The hypothesis is split into its cases first and a disjunct of the goal
    is then chosen, so that arithmetic is only ever called on atoms. *)

Ltac split_hyp H :=
  lazymatch type of H with
  | _ ∧ _ =>
      let H1 := fresh in let H2 := fresh in
      destruct H as [H1 H2]; split_hyp H1; split_hyp H2
  | _ ∨ _ => let H1 := fresh in destruct H as [H1|H1]; split_hyp H1
  | False => destruct H
  | _ => idtac
  end.

Ltac split_succ :=
  repeat match goal with
  | H : ?x < ?j + 1 |- _ =>
      let E := fresh in assert (x < j ∨ x = j) as [E|E] by lia; clear H
  end.

Ltac pick_tac :=
  lazymatch goal with
  | |- _ ∨ _ => first [left; pick_tac | right; pick_tac]
  | |- _ ∧ _ => split; pick_tac
  | |- _ => first [assumption | lia]
  end.

Ltac unfold_regions :=
  unfold corner_cells, inner_cells, side_cells, end_cells in *.

Ltac reshape_core :=
  let H := fresh in
  intros H;
  first [ split_hyp H; split_succ; first [pick_tac | exfalso; lia]
        | unfold_regions; split_hyp H; split_succ; first [pick_tac | exfalso; lia] ].

Ltac reshape_tac :=
  let r := fresh "r" in let c := fresh "c" in
  intros r c; cbv beta; reshape_core.

Ltac reshape_iff :=
  let r := fresh "r" in let c := fresh "c" in
  intros r c; cbv beta; split; reshape_core.

(** A cell that is in none of the regions listed. *)
Ltac fresh_tac :=
  let H := fresh in
  cbv beta; unfold_regions; intros H; split_hyp H; lia.

(** ** [Avery] against the naive reference *)

Section Functional.

Variables WIDTH HEIGHT : Z.
Variables prv nxt : bufid.
Variable B : board.
Variable m0 : gmap bufid board.

Hypothesis Hdim : 2 ≤ WIDTH ∧ 2 ≤ HEIGHT.
Hypothesis Halias : prv ≠ nxt.
Hypothesis HshapeB : shape WIDTH HEIGHT B.
Hypothesis HbinB : binary B.

Lemma computed_weaken (D D' : Z → Z → Prop) s :
  (∀ r c, D' r c → D r c) →
  computed WIDTH HEIGHT prv nxt B m0 D s → computed WIDTH HEIGHT prv nxt B m0 D' s.
Proof.
  intros HD (Hp & N & Hm & HN & Hget). split; [done|].
  exists N. split; [done|]. split; [done|].
  intros r c Hr Hc Hrc. by apply Hget, HD.
Qed.

Lemma hoare_computed_pre {A} (m : M A) (D D' : Z → Z → Prop) Q :
  hoare (computed WIDTH HEIGHT prv nxt B m0 D') m Q →
  (∀ r c, D' r c → D r c) →
  hoare (computed WIDTH HEIGHT prv nxt B m0 D) m Q.
Proof.
  intros Hm HD. eapply hoare_conseq; [exact Hm| |done].
  intros s. by apply computed_weaken.
Qed.

Lemma hoare_computed_post {A} (m : M A) (D D' : Z → Z → Prop) P :
  hoare P m (λ _, computed WIDTH HEIGHT prv nxt B m0 D) →
  (∀ r c, D' r c → D r c) →
  hoare P m (λ _, computed WIDTH HEIGHT prv nxt B m0 D').
Proof.
  intros Hm HD. eapply hoare_conseq; [exact Hm|done|].
  intros ? s. by apply computed_weaken.
Qed.

(** Writing the reference value into one more cell. *)
Lemma computed_write (D : Z → Z → Prop) r c s t :
  0 ≤ r < HEIGHT → 0 ≤ c < WIDTH →
  computed WIDTH HEIGHT prv nxt B m0 D s →
  ∃ N, mem s !! nxt = Some N ∧ shape WIDTH HEIGHT N ∧
    computed WIDTH HEIGHT prv nxt B m0 (λ r' c', D r' c' ∨ (r' = r ∧ c' = c))
      (State (<[nxt := set N r c (naive_cell WIDTH HEIGHT B r c)]> (mem s)) t).
Proof.
  intros Hr Hc (Hp & N & Hm & HN & Hget). exists N.
  split; [by rewrite Hm, lookup_insert_eq|]. split; [done|]. split; simpl.
  - by rewrite lookup_insert_ne.
  - exists (set N r c (naive_cell WIDTH HEIGHT B r c)).
    split; [by rewrite Hm, insert_insert_eq|].
    split; [by apply shape_set|].
    intros r' c' Hr' Hc' HD.
    destruct (decide ((r', c') = (r, c))) as [Heq|Hne].
    + injection Heq as -> ->. by apply (get_set_eq WIDTH HEIGHT).
    + rewrite get_set_ne by (done || lia).
      destruct HD as [HD | [-> ->]]; [by apply Hget | done].
Qed.

(** [n = sum; nxt[r][c] = (prv[r][c] | n) == 3;] where the sum is the
    neighbour count of the cell. *)
Lemma stmt_computed (D : Z → Z → Prop) cells r c :
  cells_ok WIDTH HEIGHT cells → 0 ≤ r < HEIGHT → 0 ≤ c < WIDTH →
  sum_cells B cells = naive_count WIDTH HEIGHT B r c →
  hoare (computed WIDTH HEIGHT prv nxt B m0 D)
        (n ← rd_sum WIDTH HEIGHT prv cells;
         k ← rd WIDTH HEIGHT prv r c;
         wr WIDTH HEIGHT nxt r c (alive_next k n))
        (λ _, computed WIDTH HEIGHT prv nxt B m0 (λ r' c', D r' c' ∨ (r' = r ∧ c' = c))).
Proof.
  intros Hcells Hr Hc Hsum s Hs.
  destruct (computed_write D r c s
              (Write nxt r c :: Read prv r c :: reads_of prv cells ++ trace s)
              Hr Hc Hs) as (N & Hq & HN & Hpost).
  destruct Hs as (Hp & _).
  unfold mbind, M_bind.
  rewrite (rd_sum_run WIDTH HEIGHT prv cells B) by done.
  rewrite (rd_run WIDTH HEIGHT prv r c B) by done.
  rewrite (wr_run WIDTH HEIGHT nxt r c _ N) by done.
  eexists _, _. split; [reflexivity|]. simpl.
  by rewrite Hsum, alive_next_naive.
Qed.

(** [k = prv[r][c]; n = sum; nxt[r][c] = (k | n) == 3;] *)
Lemma stmt_computed_interior (D : Z → Z → Prop) cells r c :
  cells_ok WIDTH HEIGHT cells → 0 ≤ r < HEIGHT → 0 ≤ c < WIDTH →
  sum_cells B cells = naive_count WIDTH HEIGHT B r c →
  hoare (computed WIDTH HEIGHT prv nxt B m0 D)
        (k ← rd WIDTH HEIGHT prv r c;
         n ← rd_sum WIDTH HEIGHT prv cells;
         wr WIDTH HEIGHT nxt r c (alive_next k n))
        (λ _, computed WIDTH HEIGHT prv nxt B m0 (λ r' c', D r' c' ∨ (r' = r ∧ c' = c))).
Proof.
  intros Hcells Hr Hc Hsum s Hs.
  destruct (computed_write D r c s
              (Write nxt r c :: reads_of prv cells ++ Read prv r c :: trace s)
              Hr Hc Hs) as (N & Hq & HN & Hpost).
  destruct Hs as (Hp & _).
  unfold mbind, M_bind.
  rewrite (rd_run WIDTH HEIGHT prv r c B) by done.
  rewrite (rd_sum_run WIDTH HEIGHT prv cells B) by done.
  rewrite (wr_run WIDTH HEIGHT nxt r c _ N) by done.
  eexists _, _. split; [reflexivity|]. simpl.
  by rewrite Hsum, alive_next_naive.
Qed.

(** The same statement when nothing is known about the sum: the written
    cell is no longer known to hold the reference value. *)
Lemma stmt_computed_any (D : Z → Z → Prop) cells r c :
  cells_ok WIDTH HEIGHT cells → 0 ≤ r < HEIGHT → 0 ≤ c < WIDTH →
  hoare (computed WIDTH HEIGHT prv nxt B m0 D)
        (n ← rd_sum WIDTH HEIGHT prv cells;
         k ← rd WIDTH HEIGHT prv r c;
         wr WIDTH HEIGHT nxt r c (alive_next k n))
        (λ _, computed WIDTH HEIGHT prv nxt B m0
                (λ r' c', D r' c' ∧ ¬ (r' = r ∧ c' = c))).
Proof.
  intros Hcells Hr Hc s (Hp & N & Hm & HN & Hget).
  assert (mem s !! nxt = Some N) as Hq by (by rewrite Hm, lookup_insert_eq).
  unfold mbind, M_bind.
  rewrite (rd_sum_run WIDTH HEIGHT prv cells B) by done.
  rewrite (rd_run WIDTH HEIGHT prv r c B) by done.
  rewrite (wr_run WIDTH HEIGHT nxt r c _ N) by done.
  eexists _, _. split; [reflexivity|]. split; simpl.
  - by rewrite lookup_insert_ne.
  - eexists. split; [by rewrite Hm, insert_insert_eq|].
    split; [by apply shape_set|].
    intros r' c' Hr' Hc' [HD Hne].
    rewrite get_set_ne by (lia || (intros [=]; tauto)).
    by apply Hget.
Qed.

Hypothesis Hle : WIDTH ≤ HEIGHT.

(** Decide every bounds check of the reference, then match the cells read. *)
Ltac bounds_tac :=
  repeat match goal with
  | |- context [in_bounds WIDTH HEIGHT ?r ?c] =>
      first [ rewrite (in_bounds_true WIDTH HEIGHT r c) by lia
            | rewrite (in_bounds_false WIDTH HEIGHT r c) by lia ]
  end.

Ltac same_cells :=
  repeat match goal with
  | |- context [cell B ?r ?c] =>
      match goal with
      | |- context [cell B ?r' ?c'] =>
          assert_fails (constr_eq r r'; constr_eq c c');
          replace (cell B r' c') with (cell B r c) by (f_equal; lia)
      end
  end.

Ltac count_tac :=
  unfold sum_cells, naive_count, naive_nb; cbn [foldr fst snd];
  bounds_tac; cbv iota; same_cells; lia.

Ltac stmt_tac lem :=
  apply lem; [cells_ok_tac | lia | lia | count_tac].

(** The third corner statement: on a square board it computes the
    bottom-left corner; on a higher board it writes a left-edge cell, with a
    sum that is not that cell's. *)
Lemma third_corner_computed (D : Z → Z → Prop) :
  hoare (computed WIDTH HEIGHT prv nxt B m0 D)
        (n ← rd_sum WIDTH HEIGHT prv [(HEIGHT-2, 0); (HEIGHT-2, 1); (HEIGHT-1, 1)];
         k ← rd WIDTH HEIGHT prv (WIDTH-1) 0;
         wr WIDTH HEIGHT nxt (WIDTH-1) 0 (alive_next k n))
        (λ _, computed WIDTH HEIGHT prv nxt B m0
                (λ r c, (D r c ∧ ¬ (r = WIDTH-1 ∧ c = 0))
                        ∨ (WIDTH = HEIGHT ∧ r = HEIGHT-1 ∧ c = 0))).
Proof.
  pose proof Hdim as [HW HH].
  destruct (decide (WIDTH = HEIGHT)) as [Heq|Hneq].
  - eapply hoare_computed_post; [stmt_tac stmt_computed|reshape_tac].
  - eapply hoare_computed_post;
      [apply stmt_computed_any; [cells_ok_tac|lia..]|reshape_tac].
Qed.

(** Every cell of the board ends with the reference value, except the
    bottom-left corner when the board is higher than wide. *)
Lemma Avery_computed :
  hoare (computed WIDTH HEIGHT prv nxt B m0 (λ _ _, False))
        (Avery WIDTH HEIGHT prv nxt)
        (λ _, computed WIDTH HEIGHT prv nxt B m0
                (λ r c, 0 ≤ r < HEIGHT ∧ 0 ≤ c < WIDTH ∧
                        (WIDTH = HEIGHT ∨ ¬ (r = HEIGHT-1 ∧ c = 0)))).
Proof.
  pose proof Hdim as [HW HH]. unfold Avery.
  set (CC := corner_cells WIDTH HEIGHT).
  set (IC := inner_cells WIDTH HEIGHT).
  set (SC := side_cells WIDTH HEIGHT).
  set (EC := end_cells WIDTH HEIGHT).
  eapply hoare_seq3; [stmt_tac stmt_computed|intros ?; cbv beta].
  eapply hoare_seq3; [stmt_tac stmt_computed|intros ?; cbv beta].
  eapply hoare_seq3; [apply third_corner_computed|intros ?; cbv beta].
  eapply (hoare_seq3 _ _ _ _ _ (λ _, computed WIDTH HEIGHT prv nxt B m0 CC));
    [eapply hoare_computed_post; [stmt_tac stmt_computed|subst CC; reshape_tac]
    |intros ?; cbv beta].
  (* interior *)
  eapply (hoare_bind _ _ _ (λ _, computed WIDTH HEIGHT prv nxt B m0
                              (λ r c, CC r c ∨ IC r c))).
  { eapply hoare_computed_pre; [eapply hoare_computed_post|];
      [apply (hoare_for (λ i, computed WIDTH HEIGHT prv nxt B m0
                (λ r c, CC r c ∨ (1 ≤ r < i ∧ 1 ≤ c < WIDTH-1)))); [lia|]
      |subst IC; reshape_tac|reshape_tac].
    intros i Hi.
    eapply hoare_computed_pre; [eapply hoare_computed_post|];
      [apply (hoare_for (λ j, computed WIDTH HEIGHT prv nxt B m0
                (λ r c, (CC r c ∨ (1 ≤ r < i ∧ 1 ≤ c < WIDTH-1))
                        ∨ (r = i ∧ 1 ≤ c < j)))); [lia|]
      |reshape_tac|reshape_tac].
    intros j Hj.
    eapply hoare_computed_post; [stmt_tac stmt_computed_interior|reshape_tac]. }
  intros ?; cbv beta.
  (* left and right edges *)
  eapply (hoare_bind _ _ _ (λ _, computed WIDTH HEIGHT prv nxt B m0
                              (λ r c, (CC r c ∨ IC r c) ∨ SC r c))).
  { eapply hoare_computed_pre; [eapply hoare_computed_post|];
      [apply (hoare_for (λ i, computed WIDTH HEIGHT prv nxt B m0
                (λ r c, (CC r c ∨ IC r c)
                        ∨ (1 ≤ r < i ∧ (c = 0 ∨ c = WIDTH-1))))); [lia|]
      |subst SC; reshape_tac|reshape_tac].
    intros i Hi.
    eapply hoare_seq3; [stmt_tac stmt_computed|intros ?; cbv beta].
    eapply hoare_computed_post; [stmt_tac stmt_computed|reshape_tac]. }
  intros ?; cbv beta.
  (* top and bottom edges *)
  eapply (hoare_computed_post _ (λ r c, ((CC r c ∨ IC r c) ∨ SC r c) ∨ EC r c)).
  { eapply hoare_computed_pre; [eapply hoare_computed_post|];
      [apply (hoare_for (λ j, computed WIDTH HEIGHT prv nxt B m0
                (λ r c, ((CC r c ∨ IC r c) ∨ SC r c)
                        ∨ ((r = 0 ∨ r = HEIGHT-1) ∧ 1 ≤ c < j)))); [lia|]
      |subst EC; reshape_tac|reshape_tac].
    intros j Hj.
    eapply hoare_seq3; [stmt_tac stmt_computed|intros ?; cbv beta].
    eapply hoare_computed_post; [stmt_tac stmt_computed|reshape_tac]. }
  (* the regions cover the board *)
  intros r c (Hr & Hc & Hrc).
  assert (r = 0 ∨ r = HEIGHT-1 ∨ 1 ≤ r < HEIGHT-1) as Hrow by lia.
  assert (c = 0 ∨ c = WIDTH-1 ∨ 1 ≤ c < WIDTH-1) as Hcol by lia.
  subst CC IC SC EC. unfold_regions.
  split_hyp Hrow; split_hyp Hcol; split_hyp Hrc; first [pick_tac | exfalso; lia].
Qed.

End Functional.

(** On a board at least as high as wide, holding 0/1 cells and written into
    a separate buffer, the run finishes and every cell of the output other
    than the bottom-left corner of a non-square board holds the value of the
    naive reference. *)
Lemma Avery_equals_naive_but_corner WIDTH HEIGHT prv nxt s B N0 :
  2 ≤ WIDTH ≤ HEIGHT → prv ≠ nxt →
  mem s !! prv = Some B → shape WIDTH HEIGHT B → binary B →
  mem s !! nxt = Some N0 → shape WIDTH HEIGHT N0 →
  ∃ s' N,
    Avery WIDTH HEIGHT prv nxt s = Done tt s' ∧
    mem s' = <[nxt := N]> (mem s) ∧ shape WIDTH HEIGHT N ∧
    ∀ r c, 0 ≤ r < HEIGHT → 0 ≤ c < WIDTH →
      WIDTH = HEIGHT ∨ ¬ (r = HEIGHT-1 ∧ c = 0) →
      get N r c = Some (naive_cell WIDTH HEIGHT B r c).
Proof.
  intros [HW Hle] Hne Hp HsB HbB Hq HsN.
  destruct (Avery_computed WIDTH HEIGHT prv nxt B (mem s)
              (conj HW (Z.le_trans _ _ _ HW Hle)) Hne HsB HbB Hle s)
    as ([] & s' & Hrun & _ & N & Hm & HN & Hget).
  { split; [done|]. exists N0. split; [by rewrite insert_id|].
    split; [done|]. intros r c _ _ []. }
  exists s', N. split; [done|]. split; [done|]. split; [done|].
  intros r c Hr Hc Hrc. by apply Hget.
Qed.

(** ** Frame: [Avery] writes to [nxt] only *)

Section Frame.

Variables WIDTH HEIGHT : Z.
Variable nxt : bufid.

Lemma frames_ret {A} (a : A) : frames nxt (mret a).
Proof. intros s a' s' Hrun. unfold mret, M_ret in Hrun. by simplify_eq. Qed.

Lemma frames_bind {A B} (m : M A) (f : A → M B) :
  frames nxt m → (∀ a, frames nxt (f a)) → frames nxt (m ≫= f).
Proof.
  intros Hm Hf s b s' Hrun r Hr. unfold mbind, M_bind in Hrun.
  destruct (m s) as [a s1|] eqn:E; [|done].
  rewrite (Hf a s1 b s' Hrun r Hr). by apply (Hm s a s1).
Qed.

Lemma frames_rd p r c : frames nxt (rd WIDTH HEIGHT p r c).
Proof.
  intros s v s' Hrun. unfold rd in Hrun.
  destruct (in_bounds WIDTH HEIGHT r c); [|done].
  destruct (mem s !! p ≫= λ b, get b r c); [|done].
  by simplify_eq.
Qed.

Lemma frames_rd_sum p cells : frames nxt (rd_sum WIDTH HEIGHT p cells).
Proof.
  induction cells as [|[r c] cells IH]; simpl.
  - apply frames_ret.
  - apply frames_bind; [apply frames_rd|]. intros v.
    apply frames_bind; [apply IH|]. intros n. apply frames_ret.
Qed.

Lemma frames_wr r c v : frames nxt (wr WIDTH HEIGHT nxt r c v).
Proof.
  intros s u s' Hrun x Hx. unfold wr in Hrun.
  destruct (in_bounds WIDTH HEIGHT r c); [|done].
  destruct (mem s !! nxt) as [b|]; [|done].
  destruct (get b r c); [|done].
  simplify_eq. simpl. by rewrite lookup_insert_ne.
Qed.

Lemma frames_for_from body n lo :
  (∀ i, frames nxt (body i)) → frames nxt (for_from n lo body).
Proof.
  intros Hbody. revert lo. induction n as [|n IH]; intros lo; simpl.
  - apply frames_ret.
  - apply frames_bind; [apply Hbody|]. intros _. apply IH.
Qed.

Lemma frames_for lo hi body :
  (∀ i, frames nxt (body i)) → frames nxt (for_range lo hi body).
Proof. apply frames_for_from. Qed.

Ltac frames_tac :=
  repeat first
    [ apply frames_rd | apply frames_rd_sum | apply frames_wr | apply frames_ret
    | apply frames_for; intros ?
    | apply frames_bind; [|intros ?] ].

Lemma Avery_frames prv : frames nxt (Avery WIDTH HEIGHT prv nxt).
Proof. unfold Avery. frames_tac. Qed.

End Frame.

(** ** The writes of [Avery] on square boards *)

Lemma writes_of_read p r c t : writes_of (Read p r c :: t) = writes_of t.
Proof. unfold writes_of. simpl. rewrite omap_app. simpl. by rewrite app_nil_r. Qed.

Lemma writes_of_write q r c t :
  writes_of (Write q r c :: t) = writes_of t ++ [(r, c)].
Proof. unfold writes_of. simpl. by rewrite omap_app. Qed.

Lemma writes_of_reads p cells t : writes_of (reads_of p cells ++ t) = writes_of t.
Proof.
  unfold reads_of. induction cells as [|[r c] cells IH]; [done|].
  simpl. rewrite <- app_assoc. simpl.
  unfold writes_of in *. rewrite rev_app_distr in *. simpl.
  rewrite !omap_app in *. simpl. rewrite app_nil_r.
  rewrite rev_involutive in *. exact IH.
Qed.

Lemma times_snoc rc l r c :
  times rc (l ++ [(r, c)]) = (times rc l + (if decide ((r, c) = rc) then 1 else 0))%nat.
Proof.
  unfold times. rewrite filter_app, length_app. f_equal.
  rewrite filter_cons. by destruct (decide ((r, c) = rc)).
Qed.

Section Tiling.

Variables WIDTH HEIGHT : Z.
Variables prv nxt : bufid.
Variable t0 : list access.

Lemma tiled_iff (D D' : Z → Z → Prop) s :
  (∀ r c, D' r c ↔ D r c) →
  tiled WIDTH HEIGHT prv nxt t0 D s → tiled WIDTH HEIGHT prv nxt t0 D' s.
Proof.
  intros HD (Hp & Hq & acc & Ht & Hcount).
  split; [done|]. split; [done|]. exists acc. split; [done|].
  intros r c. destruct (Hcount r c) as [H1 H0]. specialize (HD r c). tauto.
Qed.

Lemma hoare_tiled_pre {A} (m : M A) (D D' : Z → Z → Prop) Q :
  hoare (tiled WIDTH HEIGHT prv nxt t0 D') m Q →
  (∀ r c, D' r c ↔ D r c) →
  hoare (tiled WIDTH HEIGHT prv nxt t0 D) m Q.
Proof.
  intros Hm HD. eapply hoare_conseq; [exact Hm| |done].
  intros s. by apply tiled_iff.
Qed.

Lemma hoare_tiled_post {A} (m : M A) (D D' : Z → Z → Prop) P :
  hoare P m (λ _, tiled WIDTH HEIGHT prv nxt t0 D) →
  (∀ r c, D' r c ↔ D r c) →
  hoare P m (λ _, tiled WIDTH HEIGHT prv nxt t0 D') .
Proof.
  intros Hm HD. eapply hoare_conseq; [exact Hm|done|].
  intros ? s. by apply tiled_iff.
Qed.

Lemma tiled_count (D : Z → Z → Prop) r c acc :
  ¬ D r c →
  (∀ r' c', (D r' c' → times (r', c') (writes_of acc) = 1%nat) ∧
            (¬ D r' c' → times (r', c') (writes_of acc) = 0%nat)) →
  ∀ r' c',
    (D r' c' ∨ (r' = r ∧ c' = c) →
       times (r', c') (writes_of acc ++ [(r, c)]) = 1%nat) ∧
    (¬ (D r' c' ∨ (r' = r ∧ c' = c)) →
       times (r', c') (writes_of acc ++ [(r, c)]) = 0%nat).
Proof.
  intros Hfresh Hcount r' c'. rewrite times_snoc.
  destruct (Hcount r' c') as [H1 H0].
  destruct (decide ((r, c) = (r', c'))) as [[= <- <-]|Hne].
  - split; [|tauto]. intros _. by rewrite H0.
  - split.
    + intros [HD|[-> ->]]; [|done]. by rewrite H1.
    + intros Hnot. rewrite H0; tauto.
Qed.

(** [n = sum; nxt[r][c] = (prv[r][c] | n) == 3;] on a cell not yet written. *)
Lemma stmt_tiled (D : Z → Z → Prop) cells r c :
  cells_ok WIDTH HEIGHT cells → 0 ≤ r < HEIGHT → 0 ≤ c < WIDTH → ¬ D r c →
  hoare (tiled WIDTH HEIGHT prv nxt t0 D)
        (n ← rd_sum WIDTH HEIGHT prv cells;
         k ← rd WIDTH HEIGHT prv r c;
         wr WIDTH HEIGHT nxt r c (alive_next k n))
        (λ _, tiled WIDTH HEIGHT prv nxt t0 (λ r' c', D r' c' ∨ (r' = r ∧ c' = c))).
Proof.
  intros Hcells Hr Hc Hfresh s ((bp & Hp & Hsp) & (bq & Hq & Hsq) & acc & Ht & Hcount).
  unfold mbind, M_bind.
  rewrite (rd_sum_run WIDTH HEIGHT prv cells bp) by done.
  rewrite (rd_run WIDTH HEIGHT prv r c bp) by done.
  rewrite (wr_run WIDTH HEIGHT nxt r c _ bq) by done.
  eexists _, _. split; [reflexivity|]. simpl.
  split; [eapply shape_after_write; eauto|].
  split; [eapply shape_after_write; eauto|].
  exists (Write nxt r c :: Read prv r c :: reads_of prv cells ++ acc).
  split; [simpl; by rewrite Ht, <- ?app_assoc|].
  rewrite writes_of_write, writes_of_read, writes_of_reads.
  by apply tiled_count.
Qed.

(** [k = prv[r][c]; n = sum; nxt[r][c] = (k | n) == 3;] *)
Lemma stmt_tiled_interior (D : Z → Z → Prop) cells r c :
  cells_ok WIDTH HEIGHT cells → 0 ≤ r < HEIGHT → 0 ≤ c < WIDTH → ¬ D r c →
  hoare (tiled WIDTH HEIGHT prv nxt t0 D)
        (k ← rd WIDTH HEIGHT prv r c;
         n ← rd_sum WIDTH HEIGHT prv cells;
         wr WIDTH HEIGHT nxt r c (alive_next k n))
        (λ _, tiled WIDTH HEIGHT prv nxt t0 (λ r' c', D r' c' ∨ (r' = r ∧ c' = c))).
Proof.
  intros Hcells Hr Hc Hfresh s ((bp & Hp & Hsp) & (bq & Hq & Hsq) & acc & Ht & Hcount).
  unfold mbind, M_bind.
  rewrite (rd_run WIDTH HEIGHT prv r c bp) by done.
  rewrite (rd_sum_run WIDTH HEIGHT prv cells bp) by done.
  rewrite (wr_run WIDTH HEIGHT nxt r c _ bq) by done.
  eexists _, _. split; [reflexivity|]. simpl.
  split; [eapply shape_after_write; eauto|].
  split; [eapply shape_after_write; eauto|].
  exists (Write nxt r c :: reads_of prv cells ++ Read prv r c :: acc).
  split; [simpl; by rewrite Ht, <- ?app_assoc|].
  rewrite writes_of_write, writes_of_reads, writes_of_read.
  by apply tiled_count.
Qed.

Hypothesis Hdim : 2 ≤ WIDTH.
Hypothesis Hsquare : WIDTH = HEIGHT.

Ltac tile_tac lem :=
  apply lem; [cells_ok_tac | lia | lia | fresh_tac].

(** On a square board every cell is written exactly once. *)
Lemma Avery_tiled :
  hoare (tiled WIDTH HEIGHT prv nxt t0 (λ _ _, False))
        (Avery WIDTH HEIGHT prv nxt)
        (λ _, tiled WIDTH HEIGHT prv nxt t0
                (λ r c, 0 ≤ r < HEIGHT ∧ 0 ≤ c < WIDTH)).
Proof.
  unfold Avery.
  eapply hoare_seq3; [tile_tac stmt_tiled|intros ?; cbv beta].
  eapply hoare_seq3; [tile_tac stmt_tiled|intros ?; cbv beta].
  eapply hoare_seq3; [tile_tac stmt_tiled|intros ?; cbv beta].
  eapply (hoare_seq3 _ _ _ _ _
            (λ _, tiled WIDTH HEIGHT prv nxt t0 (corner_cells WIDTH HEIGHT)));
    [eapply hoare_tiled_post; [tile_tac stmt_tiled|reshape_iff]
    |intros ?; cbv beta].
  (* interior *)
  eapply (hoare_bind _ _ _ (λ _, tiled WIDTH HEIGHT prv nxt t0
            (λ r c, corner_cells WIDTH HEIGHT r c ∨ inner_cells WIDTH HEIGHT r c))).
  { eapply hoare_tiled_pre; [eapply hoare_tiled_post|];
      [apply (hoare_for (λ i, tiled WIDTH HEIGHT prv nxt t0
                (λ r c, corner_cells WIDTH HEIGHT r c
                        ∨ (1 ≤ r < i ∧ 1 ≤ c < WIDTH-1)))); [lia|]
      |reshape_iff|reshape_iff].
    intros i Hi.
    eapply hoare_tiled_pre; [eapply hoare_tiled_post|];
      [apply (hoare_for (λ j, tiled WIDTH HEIGHT prv nxt t0
                (λ r c, (corner_cells WIDTH HEIGHT r c
                         ∨ (1 ≤ r < i ∧ 1 ≤ c < WIDTH-1))
                        ∨ (r = i ∧ 1 ≤ c < j)))); [lia|]
      |reshape_iff|reshape_iff].
    intros j Hj.
    eapply hoare_tiled_post; [tile_tac stmt_tiled_interior|reshape_iff]. }
  intros ?; cbv beta.
  (* left and right edges *)
  eapply (hoare_bind _ _ _ (λ _, tiled WIDTH HEIGHT prv nxt t0
            (λ r c, (corner_cells WIDTH HEIGHT r c ∨ inner_cells WIDTH HEIGHT r c)
                    ∨ side_cells WIDTH HEIGHT r c))).
  { eapply hoare_tiled_pre; [eapply hoare_tiled_post|];
      [apply (hoare_for (λ i, tiled WIDTH HEIGHT prv nxt t0
                (λ r c, (corner_cells WIDTH HEIGHT r c ∨ inner_cells WIDTH HEIGHT r c)
                        ∨ (1 ≤ r < i ∧ (c = 0 ∨ c = WIDTH-1))))); [lia|]
      |reshape_iff|reshape_iff].
    intros i Hi.
    eapply hoare_seq3; [tile_tac stmt_tiled|intros ?; cbv beta].
    eapply hoare_tiled_post; [tile_tac stmt_tiled|reshape_iff]. }
  intros ?; cbv beta.
  (* top and bottom edges *)
  eapply (hoare_tiled_post _
            (λ r c, ((corner_cells WIDTH HEIGHT r c ∨ inner_cells WIDTH HEIGHT r c)
                     ∨ side_cells WIDTH HEIGHT r c) ∨ end_cells WIDTH HEIGHT r c)).
  { eapply hoare_tiled_pre; [eapply hoare_tiled_post|];
      [apply (hoare_for (λ j, tiled WIDTH HEIGHT prv nxt t0
                (λ r c, ((corner_cells WIDTH HEIGHT r c ∨ inner_cells WIDTH HEIGHT r c)
                         ∨ side_cells WIDTH HEIGHT r c)
                        ∨ ((r = 0 ∨ r = HEIGHT-1) ∧ 1 ≤ c < j)))); [lia|]
      |reshape_iff|reshape_iff].
    intros j Hj.
    eapply hoare_seq3; [tile_tac stmt_tiled|intros ?; cbv beta].
    eapply hoare_tiled_post; [tile_tac stmt_tiled|reshape_iff]. }
  (* the regions are the board *)
  intros r c. split.
  - intros [Hr Hc].
    assert (r = 0 ∨ r = HEIGHT-1 ∨ 1 ≤ r < HEIGHT-1) as Hrow by lia.
    assert (c = 0 ∨ c = WIDTH-1 ∨ 1 ≤ c < WIDTH-1) as Hcol by lia.
    unfold_regions.
    split_hyp Hrow; split_hyp Hcol; first [pick_tac | exfalso; lia].
  - reshape_core.
Qed.

End Tiling.

(** On a square board, [Avery] writes every cell of the board exactly once,
    and no other cell. *)
Lemma Avery_writes_tile_square n prv nxt s bp bq :
  2 ≤ n →
  mem s !! prv = Some bp → shape n n bp →
  mem s !! nxt = Some bq → shape n n bq →
  ∃ s' acc,
    Avery n n prv nxt s = Done tt s' ∧ trace s' = acc ++ trace s ∧
    ∀ r c, times (r, c) (writes_of acc)
           = if bool_decide (0 ≤ r < n ∧ 0 ≤ c < n) then 1%nat else 0%nat.
Proof.
  intros Hn Hp Hsp Hq Hsq.
  destruct (Avery_tiled n n prv nxt (trace s) Hn eq_refl s)
    as ([] & s' & Hrun & _ & _ & acc & Ht & Hcount).
  { split; [eauto|]. split; [eauto|]. exists []. split; [done|].
    intros r c. split; [done|]. intros _. reflexivity. }
  exists s', acc. split; [done|]. split; [done|].
  intros r c. destruct (Hcount r c) as [H1 H0].
  case_bool_decide; [by apply H1 | by apply H0].
Qed.

(** ** The bottom-left corner when the board is not square

    The third corner statement reads [prv[WIDTH-1][0]] and writes
    [nxt[WIDTH-1][0]].  On a board wider than high that row does not exist;
    on a board higher than wide the cell [(HEIGHT-1, 0)] is written by no
    statement. *)

Section BottomLeft.

Variables WIDTH HEIGHT : Z.
Variables prv nxt : bufid.

Lemma faults_seq3 {A B C D} (m1 : M A) (m2 : A → M B) (m3 : A → B → M C)
    (f : C → M D) P R acc :
  hoare P (a ← m1; b ← m2 a; m3 a b) R →
  (∀ x, faults (R x) (f x) acc) →
  faults P (a ← m1; b ← m2 a; m3 a b ≫= f) acc.
Proof.
  intros Hm Hf s Hs. destruct (Hm s Hs) as (x & s1 & Hrun & HR).
  specialize (Hf x s1 HR).
  unfold mbind, M_bind in *.
  destruct (m1 s) as [a sa|]; [|done].
  destruct (m2 a sa) as [b sb|]; [|done].
  by rewrite Hrun.
Qed.

Lemma faults_read_after_sum {A} t0 must cells r c (f : Z → Z → M A) :
  cells_ok WIDTH HEIGHT cells → ¬ (0 ≤ r < HEIGHT ∧ 0 ≤ c < WIDTH) →
  faults (safe WIDTH HEIGHT prv nxt t0 must)
         (n ← rd_sum WIDTH HEIGHT prv cells; k ← rd WIDTH HEIGHT prv r c; f n k)
         (Read prv r c).
Proof.
  intros Hcells Hout s ((bp & Hp & Hsp) & _).
  unfold mbind, M_bind.
  rewrite (rd_sum_run WIDTH HEIGHT prv cells bp) by done.
  unfold rd. by rewrite in_bounds_false.
Qed.

(** Wider than high: the run stops at the read of row [WIDTH-1]. *)
Lemma Avery_faults_when_wide s bp bq :
  2 ≤ HEIGHT < WIDTH →
  mem s !! prv = Some bp → shape WIDTH HEIGHT bp →
  mem s !! nxt = Some bq → shape WIDTH HEIGHT bq →
  Avery WIDTH HEIGHT prv nxt s = Fault (Read prv (WIDTH-1) 0).
Proof.
  intros HWH Hp Hsp Hq Hsq.
  assert (faults (safe WIDTH HEIGHT prv nxt (trace s) [])
                 (Avery WIDTH HEIGHT prv nxt) (Read prv (WIDTH-1) 0)) as Hfault.
  { unfold Avery.
    eapply faults_seq3; [apply stmt_safe_keep; [cells_ok_tac|lia..]|intros ?; cbv beta].
    eapply faults_seq3; [apply stmt_safe_keep; [cells_ok_tac|lia..]|intros ?; cbv beta].
    apply (faults_read_after_sum (trace s) []
             [(HEIGHT-2, 0); (HEIGHT-2, 1); (HEIGHT-1, 1)] (WIDTH-1) 0
             (λ n k, wr WIDTH HEIGHT nxt (WIDTH-1) 0 (alive_next k n) ≫= _));
      [cells_ok_tac|lia]. }
  apply Hfault. split; [eauto|]. split; [eauto|].
  exists []. split; [done|]. split; [constructor|done].
Qed.

Lemma keeps_ret {A} q r c (a : A) : keeps q r c (mret a).
Proof. intros s a' s' Hrun. unfold mret, M_ret in Hrun. by simplify_eq. Qed.

Lemma keeps_bind {A B} q r c (m : M A) (f : A → M B) :
  keeps q r c m → (∀ a, keeps q r c (f a)) → keeps q r c (m ≫= f).
Proof.
  intros Hm Hf s b s' Hrun. unfold mbind, M_bind in Hrun.
  destruct (m s) as [a s1|] eqn:E; [|done].
  rewrite (Hf a s1 b s' Hrun). by apply (Hm s a s1).
Qed.

Lemma keeps_rd q r c p r' c' : keeps q r c (rd WIDTH HEIGHT p r' c').
Proof.
  intros s v s' Hrun. unfold rd in Hrun.
  destruct (in_bounds WIDTH HEIGHT r' c'); [|done].
  destruct (mem s !! p ≫= λ b, get b r' c'); [|done].
  by simplify_eq.
Qed.

Lemma keeps_rd_sum q r c p cells : keeps q r c (rd_sum WIDTH HEIGHT p cells).
Proof.
  induction cells as [|[r' c'] cells IH]; simpl.
  - apply keeps_ret.
  - apply keeps_bind; [apply keeps_rd|]. intros v.
    apply keeps_bind; [apply IH|]. intros n. apply keeps_ret.
Qed.

(** A write to another cell of the same buffer. *)
Lemma keeps_wr q r c r' c' v :
  0 ≤ r → 0 ≤ c → (r, c) ≠ (r', c') → keeps q r c (wr WIDTH HEIGHT q r' c' v).
Proof.
  intros Hr Hc Hne s u s' Hrun. unfold wr in Hrun.
  destruct (in_bounds WIDTH HEIGHT r' c') eqn:Hin; [|done].
  apply in_bounds_spec in Hin as [Hr' Hc'].
  unfold cell_at.
  destruct (mem s !! q) as [b|]; [|done].
  destruct (get b r' c'); [|done].
  simplify_eq. simpl. rewrite lookup_insert_eq. simpl.
  apply get_set_ne; (lia || done).
Qed.

Lemma keeps_for_from q r c body n lo :
  (∀ i, lo ≤ i < lo + Z.of_nat n → keeps q r c (body i)) →
  keeps q r c (for_from n lo body).
Proof.
  revert lo. induction n as [|n IH]; intros lo Hbody; simpl.
  - apply keeps_ret.
  - apply keeps_bind; [apply Hbody; lia|]. intros _.
    apply IH. intros i Hi. apply Hbody. lia.
Qed.

Lemma keeps_for q r c lo hi body :
  (∀ i, lo ≤ i < hi → keeps q r c (body i)) →
  keeps q r c (for_range lo hi body).
Proof.
  intros Hbody. apply keeps_for_from. intros i Hi. apply Hbody. lia.
Qed.

Ltac keeps_tac :=
  repeat first
    [ apply keeps_rd | apply keeps_rd_sum | apply keeps_ret
    | apply keeps_wr; [lia | lia | intros [=]; lia]
    | apply keeps_for; intros ? ?
    | apply keeps_bind; [|intros ?] ].

Lemma Avery_keeps_bottom_left :
  2 ≤ WIDTH < HEIGHT → keeps nxt (HEIGHT-1) 0 (Avery WIDTH HEIGHT prv nxt).
Proof. intros HWH. unfold Avery. keeps_tac. Qed.

End BottomLeft.

(** Higher than wide: the run finishes and the bottom-left cell of the
    output buffer holds what it held before the call. *)
Lemma Avery_leaves_bottom_left_when_high WIDTH HEIGHT prv nxt s bp bq :
  2 ≤ WIDTH < HEIGHT →
  mem s !! prv = Some bp → shape WIDTH HEIGHT bp →
  mem s !! nxt = Some bq → shape WIDTH HEIGHT bq →
  ∃ s', Avery WIDTH HEIGHT prv nxt s = Done tt s' ∧
        cell_at nxt (HEIGHT-1) 0 s' = Some (cell bq (HEIGHT-1) 0).
Proof.
  intros HWH Hp Hsp Hq Hsq.
  destruct (Avery_safe_from_two WIDTH HEIGHT prv nxt (trace s) (conj (proj1 HWH) (Z.lt_le_incl _ _ (proj2 HWH))) s)
    as ([] & s' & Hrun & _).
  { split; [eauto|]. split; [eauto|]. exists []. split; [done|].
    split; [constructor|done]. }
  exists s'. split; [done|].
  rewrite (Avery_keeps_bottom_left WIDTH HEIGHT prv nxt HWH s tt s' Hrun).
  unfold cell_at. rewrite Hq. simpl.
  apply (get_shape WIDTH HEIGHT); (done || lia).
Qed.

(** ** The command line: facts about [strcmp] *)

Lemma compare_same (b : string) : String.compare b b = Eq.
Proof.
  pose proof (String.compare_antisym b b) as H.
  destruct (String.compare b b); simpl in H; congruence.
Qed.

Lemma strcmp_0 a b : (0 =? strcmp a b) = bool_decide (a = b).
Proof.
  unfold strcmp. destruct (String.compare a b) eqn:E.
  - apply String.compare_eq_iff in E. subst. by rewrite bool_decide_eq_true_2.
  - rewrite bool_decide_eq_false_2; [done|]. intros ->.
    rewrite compare_same in E. discriminate.
  - rewrite bool_decide_eq_false_2; [done|]. intros ->.
    rewrite compare_same in E. discriminate.
Qed.

(** * The claims *)

(** C1. On a board three columns wide and four rows high, [Avery] and the
    naive reference disagree: for the 0/1 board [ell34] written into a zeroed
    output buffer, the reference makes the bottom-left cell (3,0) alive (it
    has exactly three live neighbours), while [Avery] never writes that cell
    and leaves it dead.  The equivalence claimed for every WIDTH, HEIGHT >= 3
    fails at WIDTH = 3, HEIGHT = 4. *)
Theorem Avery_differs_from_naive_3x4 :
  binary ell34 ∧ shape 3 4 ell34 ∧
  result_board 2%positive (Avery 3 4 1 2 (store ell34 dead34))
    = Some [[0;0;0]; [0;0;0]; [1;1;0]; [0;1;0]] ∧
  naive 3 4 ell34 = [[0;0;0]; [0;0;0]; [1;1;0]; [1;1;0]] ∧
  (result_board 2%positive (Avery 3 4 1 2 (store ell34 dead34)) ≫= λ b, get b 3 0)
    ≠ Some (naive_cell 3 4 ell34 3 0).
Proof.
  split.
  { unfold binary, ell34.
    repeat first [apply Forall_nil_2 | apply Forall_cons_2];
      ((by left) || (by right)). }
  split; [split; [reflexivity|repeat constructor]|].
  split; [by vm_compute|]. split; [by vm_compute|].
  vm_compute. discriminate.
Qed.

(** C2. On a board three columns wide and four rows high the writes of
    [Avery] do not tile the board: the bottom-left cell (3,0) is written zero
    times and the left-edge cell (2,0) is written twice (once by the third
    corner assignment, which uses WIDTH-1 as its row, and once by the
    left/right edge loop). *)
Theorem Avery_writes_do_not_tile_3x4 :
  written (Avery 3 4 1 2 (store ell34 dead34))
    = [(0,0); (0,2); (2,0); (3,2); (1,1); (2,1); (1,2); (1,0); (2,2); (2,0);
       (3,1); (0,1)] ∧
  times (3,0) (written (Avery 3 4 1 2 (store ell34 dead34))) = 0%nat ∧
  times (2,0) (written (Avery 3 4 1 2 (store ell34 dead34))) = 2%nat.
Proof. split; [by vm_compute|]. split; by vm_compute. Qed.

(** C3. When 3 <= WIDTH <= HEIGHT and both buffers hold boards of the
    declared dimensions, [Avery] runs to completion without a fault, and
    every access it performs, read or write, has 0 <= r < HEIGHT and
    0 <= c < WIDTH; among them are the read [prv[WIDTH-1][0]] and the write
    [nxt[WIDTH-1][0]], which use WIDTH-1 as a row index. *)
Theorem Avery_accesses_in_bounds WIDTH HEIGHT prv nxt s bp bq :
  3 ≤ WIDTH ≤ HEIGHT →
  mem s !! prv = Some bp → shape WIDTH HEIGHT bp →
  mem s !! nxt = Some bq → shape WIDTH HEIGHT bq →
  ∃ s' acc,
    Avery WIDTH HEIGHT prv nxt s = Done tt s' ∧
    trace s' = acc ++ trace s ∧
    Forall (access_ok WIDTH HEIGHT) acc ∧
    Read prv (WIDTH-1) 0 ∈ acc ∧ Write nxt (WIDTH-1) 0 ∈ acc.
Proof.
  intros HWH Hp Hsp Hq Hsq.
  destruct (Avery_safe WIDTH HEIGHT prv nxt (trace s) HWH s)
    as ([] & s' & Hrun & _ & _ & acc & Ht & Hok & Hmust).
  { split; [eauto|]. split; [eauto|]. exists []. split; [done|].
    split; [constructor|done]. }
  exists s', acc. split; [done|]. split; [done|]. split; [done|].
  split; apply Hmust; rewrite !elem_of_cons; tauto.
Qed.

Lemma Avery_accesses_in_bounds_witness :
  3 ≤ 3 ≤ 4 ∧
  ∃ s' acc,
    Avery 3 4 1 2 (store ell34 dead34) = Done tt s' ∧
    trace s' = acc ++ trace (store ell34 dead34) ∧
    Forall (access_ok 3 4) acc ∧
    Read 1 (3-1) 0 ∈ acc ∧ Write 2 (3-1) 0 ∈ acc.
Proof.
  split; [lia|].
  apply (Avery_accesses_in_bounds 3 4 1 2 (store ell34 dead34) ell34 dead34).
  - lia.
  - reflexivity.
  - split; [reflexivity|repeat constructor].
  - reflexivity.
  - split; [reflexivity|repeat constructor].
Defined.

(** C4. For an alive flag [a] in {0, 1} and a neighbour count [n] with
    0 <= n <= 8, the expression [(a | n) == 3] is true exactly when B3/S23
    makes the cell alive: for a = 1 exactly when n is 2 or 3, for a = 0
    exactly when n is 3. *)
Theorem alive_next_is_b3s23 a n :
  a = 0 ∨ a = 1 → 0 ≤ n ≤ 8 →
  ((Z.lor a n =? 3) = true ↔ alive_next a n = 1) ∧
  (alive_next a n = 1 ↔ (a = 1 ∧ (n = 2 ∨ n = 3)) ∨ (a = 0 ∧ n = 3)) ∧
  (alive_next a n = 1 ↔ b3s23 (a =? 1) n = true).
Proof.
  intros Ha Hn. split; [|split].
  - unfold alive_next. destruct (Z.lor a n =? 3); split; (done || lia).
  - rewrite (alive_next_rule a n Ha Hn). unfold b3s23.
    destruct Ha as [-> | ->]; simpl.
    + destruct (n =? 3) eqn:E; split; intros; (done || lia).
    + destruct (n =? 2) eqn:E2, (n =? 3) eqn:E3; simpl; split; intros;
        (done || lia).
  - rewrite (alive_next_rule a n Ha Hn).
    destruct (b3s23 (a =? 1) n); split; (done || lia).
Qed.

Lemma alive_next_is_b3s23_witness :
  (1 = 0 ∨ 1 = 1) ∧ 0 ≤ 2 ≤ 8 ∧
  ((Z.lor 1 2 =? 3) = true ↔ alive_next 1 2 = 1) ∧
  (alive_next 1 2 = 1 ↔ (1 = 1 ∧ (2 = 2 ∨ 2 = 3)) ∨ (1 = 0 ∧ 2 = 3)) ∧
  (alive_next 1 2 = 1 ↔ b3s23 (1 =? 1) 2 = true).
Proof.
  split; [right; reflexivity|]. split; [lia|].
  apply (alive_next_is_b3s23 1 2); [right; reflexivity | lia].
Defined.

(** C5. On a square board (WIDTH = HEIGHT = n >= 3) holding 0/1 cells,
    [Avery] writing into a separate buffer of the same dimensions finishes,
    and the board it leaves in [nxt] is the board of the naive bounds-checked
    reference: the two agree at every cell. *)
Theorem Avery_square_equals_naive n prv nxt s B N0 :
  3 ≤ n → prv ≠ nxt →
  mem s !! prv = Some B → shape n n B → binary B →
  mem s !! nxt = Some N0 → shape n n N0 →
  ∃ s',
    Avery n n prv nxt s = Done tt s' ∧
    mem s' = <[nxt := naive n n B]> (mem s) ∧
    ∀ r c, 0 ≤ r < n → 0 ≤ c < n →
      (mem s' !! nxt ≫= λ b, get b r c) = Some (naive_cell n n B r c).
Proof.
  intros Hn Hne Hp HsB HbB Hq HsN.
  destruct (Avery_equals_naive_but_corner n n prv nxt s B N0)
    as (s' & N & Hrun & Hm & HN & Hget); [lia|done..|].
  assert (N = naive n n B) as ->.
  { apply (board_ext n n); [done|apply shape_naive|].
    intros r c Hr Hc. rewrite get_naive by done. apply Hget; (done || by left). }
  exists s'. split; [done|]. split; [done|].
  intros r c Hr Hc. rewrite Hm, lookup_insert_eq. simpl. by apply get_naive.
Qed.

Lemma Avery_square_equals_naive_witness :
  3 ≤ 3 ∧ (1 ≠ 2)%positive ∧
  ∃ s',
    Avery 3 3 1 2 (store blinker33 dead33) = Done tt s' ∧
    mem s' = <[2%positive := naive 3 3 blinker33]> (mem (store blinker33 dead33)) ∧
    ∀ r c, 0 ≤ r < 3 → 0 ≤ c < 3 →
      (mem s' !! 2%positive ≫= λ b, get b r c) = Some (naive_cell 3 3 blinker33 r c).
Proof.
  split; [lia|]. split; [discriminate|].
  apply (Avery_square_equals_naive 3 1 2 (store blinker33 dead33) blinker33 dead33).
  - lia.
  - discriminate.
  - reflexivity.
  - split; [reflexivity|repeat constructor].
  - unfold binary, blinker33.
    repeat first [apply Forall_nil_2 | apply Forall_cons_2];
      ((by left) || (by right)).
  - reflexivity.
  - split; [reflexivity|repeat constructor].
Defined.

(** C6. On a board three columns wide and four rows high the output of
    [Avery] depends on what the output buffer held before the call: from the
    same previous board [single34], a zeroed buffer ends all dead while a
    buffer whose bottom-left cell was 1 ends with that cell still 1. *)
Theorem Avery_output_depends_on_buffer_3x4 :
  result_board 2%positive (Avery 3 4 1 2 (store single34 dead34)) = Some dead34 ∧
  result_board 2%positive (Avery 3 4 1 2 (store single34 stale34)) = Some stale34 ∧
  result_board 2%positive (Avery 3 4 1 2 (store single34 dead34))
    ≠ result_board 2%positive (Avery 3 4 1 2 (store single34 stale34)).
Proof.
  split; [by vm_compute|]. split; [by vm_compute|]. vm_compute. discriminate.
Qed.

(** C7. On a board three columns wide and four rows high with exactly one
    live cell, the board [Avery] produces is not entirely dead when the
    output buffer held a live bottom-left cell: that cell is never written
    and stays 1. *)
Theorem Avery_single_cell_not_cleared_3x4 :
  binary single34 ∧ live_count single34 = 1 ∧
  result_board 2%positive (Avery 3 4 1 2 (store single34 stale34))
    = Some [[0;0;0]; [0;0;0]; [0;0;0]; [1;0;0]] ∧
  (result_board 2%positive (Avery 3 4 1 2 (store single34 stale34))
     ≫= λ b, get b 3 0) = Some 1.
Proof.
  split.
  { unfold binary, single34.
    repeat first [apply Forall_nil_2 | apply Forall_cons_2];
      ((by left) || (by right)). }
  split; [reflexivity|]. split; by vm_compute.
Qed.

(** A run that stays on the board and returns changes no buffer other than
    [nxt]; the previous board, when it is a buffer distinct from [nxt], is
    unchanged in every cell.  Only runs with 2 <= WIDTH <= HEIGHT return. *)
Lemma Avery_only_writes_nxt WIDTH HEIGHT prv nxt s s' :
  Avery WIDTH HEIGHT prv nxt s = Done tt s' →
  (∀ r, r ≠ nxt → mem s' !! r = mem s !! r) ∧
  (prv ≠ nxt → mem s' !! prv = mem s !! prv).
Proof.
  intros Hrun.
  assert (∀ r, r ≠ nxt → mem s' !! r = mem s !! r) as Hframe.
  { exact (Avery_frames WIDTH HEIGHT nxt prv s tt s' Hrun). }
  split; [done|]. apply Hframe.
Qed.

(** C9. On a board four columns wide and three rows high the third corner
    statement, [nxt[WIDTH-1][0] = (prv[WIDTH-1][0] | n) == 3], addresses row
    3 of boards that have rows 0 to 2: the run gets as far as that statement
    (its outcome is the off-board read [prv[3][0]]), and the store of the
    statement, [nxt[3][0]], is outside the output board in every store.
    The effect of [Avery] is therefore not confined to the output board. *)
Theorem Avery_stores_off_board_4x3 :
  shape 4 3 dead43 ∧
  Avery 4 3 1 2 (store dead43 dead43) = Fault (Read 1 3 0) ∧
  ¬ access_ok 4 3 (Write 2 (4-1) 0) ∧
  (∀ s v, wr 4 3 2 (4-1) 0 v s = Fault (Write 2 3 0)).
Proof.
  split; [split; [reflexivity|repeat constructor]|].
  split; [by vm_compute|]. split.
  - simpl. lia.
  - intros s v. unfold wr. rewrite in_bounds_false by lia. reflexivity.
Qed.

(** A call in place ([prv] and [nxt] the same buffer) overwrites the
    previous board: the hypothesis [prv ≠ nxt] of [Avery_only_writes_nxt]
    cannot be dropped. *)
Example Avery_in_place_overwrites :
  result_board 1%positive (Avery 3 3 1 1 (store blinker33 dead33))
    = Some [[0;1;0]; [1;1;1]; [0;1;0]].
Proof. by vm_compute. Qed.

(** C10. [main] prints the usage message
    ["Usage: <argv[0]> [-nw]"], a line feed, a tab, ["-nw  No window"] and a
    line feed to standard error and returns [EXIT_FAILURE] when there are
    more than two arguments, or exactly two and the second is not [-nw];
    otherwise it registers the method under the name ["Avery"], runs the
    game and returns [EXIT_SUCCESS], passing the no-window flag exactly when
    [-nw] was given.  The two exit statuses differ. *)
Theorem main_spec (argv : list string) :
  main argv =
    (if bool_decide ((2 < length argv)%nat ∨
                     (length argv = 2%nat ∧ argv !! 1%nat ≠ Some "-nw"%string))
     then ([Stderr ("Usage: " ++ default EmptyString (argv !! 0%nat) ++ " [-nw]"
                    ++ String "010"%char
                         (String "009"%char
                            ("-nw  No window" ++ String "010"%char EmptyString)))%string],
           EXIT_FAILURE)
     else ([AddMethod "Avery";
            RunGame (bool_decide (argv !! 1%nat = Some "-nw"%string))],
           EXIT_SUCCESS))
  ∧ EXIT_FAILURE ≠ EXIT_SUCCESS.
Proof.
  split; [|discriminate].
  unfold main. rewrite strcmp_0.
  destruct argv as [|a0 [|a1 [|a2 rest]]].
  - reflexivity.
  - reflexivity.
  - simpl. destruct (decide (a1 = "-nw"%string)) as [->|Hne].
    + reflexivity.
    + rewrite (bool_decide_eq_false_2 (a1 = _)) by done. simpl.
      rewrite (bool_decide_eq_false_2 (Some a1 = _)) by congruence.
      rewrite bool_decide_eq_true_2; [done|].
      right. split; [done|]. congruence.
  - assert ((Z.of_nat (length (a0 :: a1 :: a2 :: rest)) >? 2) = true) as ->.
    { rewrite Z.gtb_ltb. apply Z.ltb_lt. simpl length. lia. }
    reflexivity.
Qed.

(** * Further properties of [Avery] *)

(** ** Boards too small for the corner statements *)

Lemma Avery_faults_when_narrow WIDTH HEIGHT prv nxt s :
  WIDTH ≤ 1 ∨ HEIGHT ≤ 0 →
  Avery WIDTH HEIGHT prv nxt s = Fault (Read prv 0 1).
Proof.
  intros Hsmall. unfold Avery. cbn [rd_sum]. unfold mbind, M_bind, rd.
  rewrite in_bounds_false by lia. reflexivity.
Qed.

Lemma Avery_faults_when_flat WIDTH HEIGHT prv nxt s bp :
  2 ≤ WIDTH → HEIGHT = 1 →
  mem s !! prv = Some bp → shape WIDTH HEIGHT bp →
  Avery WIDTH HEIGHT prv nxt s = Fault (Read prv 1 1).
Proof.
  intros HW HH Hp Hsp. unfold Avery. cbn [rd_sum]. unfold mbind, M_bind.
  rewrite (rd_run WIDTH HEIGHT prv 0 1 bp) by (done || lia).
  unfold rd. rewrite in_bounds_false by lia. reflexivity.
Qed.

(** ** Facts about the naive reference *)

Section NaiveBoards.

Variables WIDTH HEIGHT : Z.

Lemma binary_of_cells b :
  shape WIDTH HEIGHT b →
  (∀ r c, 0 ≤ r < HEIGHT → 0 ≤ c < WIDTH → cell b r c = 0 ∨ cell b r c = 1) →
  binary b.
Proof.
  intros [Hlen Hrows] Hcells. unfold binary.
  apply Forall_lookup. intros i row Hrow. apply Forall_lookup. intros j v Hv.
  assert (length row = Z.to_nat WIDTH) as Hw.
  { rewrite Forall_lookup in Hrows. eauto. }
  apply lookup_lt_Some in Hrow as Hi. apply lookup_lt_Some in Hv as Hj.
  specialize (Hcells (Z.of_nat i) (Z.of_nat j)).
  unfold cell, get in Hcells. rewrite !Nat2Z.id, Hrow in Hcells. simpl in Hcells.
  rewrite Hv in Hcells. simpl in Hcells. apply Hcells; lia.
Qed.

Lemma naive_cell_binary b r c :
  naive_cell WIDTH HEIGHT b r c = 0 ∨ naive_cell WIDTH HEIGHT b r c = 1.
Proof. unfold naive_cell. destruct (b3s23 _ _); [by right | by left]. Qed.

(** A neighbour's contribution depends on the board only through that
    neighbour, and only when it is on the board. *)
Lemma naive_nb_local b1 b2 r c :
  (0 ≤ r < HEIGHT → 0 ≤ c < WIDTH → cell b1 r c = cell b2 r c) →
  naive_nb WIDTH HEIGHT b1 r c = naive_nb WIDTH HEIGHT b2 r c.
Proof.
  intros Heq. unfold naive_nb.
  destruct (in_bounds WIDTH HEIGHT r c) eqn:Hin; [|done].
  apply in_bounds_spec in Hin as [Hr Hc]. by apply Heq.
Qed.

(** The reference value of a cell depends only on the cells of the board at
    distance at most one. *)
Lemma naive_cell_local b1 b2 r c :
  0 ≤ r < HEIGHT → 0 ≤ c < WIDTH →
  (∀ r' c', r-1 ≤ r' ≤ r+1 → c-1 ≤ c' ≤ c+1 →
            0 ≤ r' < HEIGHT → 0 ≤ c' < WIDTH → cell b1 r' c' = cell b2 r' c') →
  naive_cell WIDTH HEIGHT b1 r c = naive_cell WIDTH HEIGHT b2 r c.
Proof.
  intros Hr Hc Hwin. unfold naive_cell, naive_count.
  rewrite (Hwin r c) by lia.
  rewrite (naive_nb_local b1 b2 (r-1) (c-1)) by (apply Hwin; lia).
  rewrite (naive_nb_local b1 b2 (r-1) c) by (apply Hwin; lia).
  rewrite (naive_nb_local b1 b2 (r-1) (c+1)) by (apply Hwin; lia).
  rewrite (naive_nb_local b1 b2 r (c-1)) by (apply Hwin; lia).
  rewrite (naive_nb_local b1 b2 r (c+1)) by (apply Hwin; lia).
  rewrite (naive_nb_local b1 b2 (r+1) (c-1)) by (apply Hwin; lia).
  rewrite (naive_nb_local b1 b2 (r+1) c) by (apply Hwin; lia).
  rewrite (naive_nb_local b1 b2 (r+1) (c+1)) by (apply Hwin; lia).
  reflexivity.
Qed.

(** An empty board stays empty. *)
Lemma naive_cell_dead b r c :
  (∀ r' c', 0 ≤ r' < HEIGHT → 0 ≤ c' < WIDTH → cell b r' c' = 0) →
  0 ≤ r < HEIGHT → 0 ≤ c < WIDTH →
  naive_cell WIDTH HEIGHT b r c = 0.
Proof.
  intros Hdead Hr Hc.
  assert (∀ r' c', naive_nb WIDTH HEIGHT b r' c' = 0) as Hnb.
  { intros r' c'. unfold naive_nb.
    destruct (in_bounds WIDTH HEIGHT r' c') eqn:Hin; [|done].
    apply in_bounds_spec in Hin as [? ?]. by apply Hdead. }
  unfold naive_cell, naive_count. rewrite !Hnb, (Hdead r c) by done.
  reflexivity.
Qed.

(** A board whose only live cell is [(r0, c0)]. *)
Lemma naive_nb_single b r0 c0 r c :
  0 ≤ r0 < HEIGHT → 0 ≤ c0 < WIDTH → cell b r0 c0 = 1 →
  (∀ r' c', 0 ≤ r' < HEIGHT → 0 ≤ c' < WIDTH → ¬ (r' = r0 ∧ c' = c0) →
            cell b r' c' = 0) →
  naive_nb WIDTH HEIGHT b r c = if bool_decide (r = r0 ∧ c = c0) then 1 else 0.
Proof.
  intros Hr0 Hc0 Hlive Hrest. unfold naive_nb. case_bool_decide as Hrc.
  - destruct Hrc as [-> ->]. by rewrite in_bounds_true.
  - destruct (in_bounds WIDTH HEIGHT r c) eqn:Hin; [|done].
    apply in_bounds_spec in Hin as [? ?]. by apply Hrest.
Qed.

Lemma naive_cell_single b r0 c0 r c :
  0 ≤ r0 < HEIGHT → 0 ≤ c0 < WIDTH → cell b r0 c0 = 1 →
  (∀ r' c', 0 ≤ r' < HEIGHT → 0 ≤ c' < WIDTH → ¬ (r' = r0 ∧ c' = c0) →
            cell b r' c' = 0) →
  0 ≤ r < HEIGHT → 0 ≤ c < WIDTH →
  naive_cell WIDTH HEIGHT b r c = 0.
Proof.
  intros Hr0 Hc0 Hlive Hrest Hr Hc.
  assert (0 ≤ naive_count WIDTH HEIGHT b r c ≤ 1) as Hcount.
  { unfold naive_count.
    rewrite !(naive_nb_single b r0 c0) by done.
    repeat (case_bool_decide; try lia). }
  assert (cell b r c = 0 ∨ cell b r c = 1) as [Hk|Hk].
  { destruct (decide (r = r0 ∧ c = c0)) as [[-> ->]|Hne];
      [by right | left; by apply Hrest]. }
  - unfold naive_cell. rewrite Hk. simpl.
    destruct (naive_count WIDTH HEIGHT b r c =? 3) eqn:E; [lia|done].
  - unfold naive_cell. rewrite Hk. simpl.
    destruct (naive_count WIDTH HEIGHT b r c =? 2) eqn:E2; [lia|].
    destruct (naive_count WIDTH HEIGHT b r c =? 3) eqn:E3; [lia|done].
Qed.

(** A board with every cell alive: a corner has three live neighbours, an
    edge cell five and an interior cell eight, so only the corners survive. *)
Lemma naive_nb_full b r c :
  (∀ r' c', 0 ≤ r' < HEIGHT → 0 ≤ c' < WIDTH → cell b r' c' = 1) →
  naive_nb WIDTH HEIGHT b r c = if in_bounds WIDTH HEIGHT r c then 1 else 0.
Proof.
  intros Hfull. unfold naive_nb.
  destruct (in_bounds WIDTH HEIGHT r c) eqn:Hin; [|done].
  apply in_bounds_spec in Hin as [? ?]. by apply Hfull.
Qed.

Ltac decide_bounds :=
  repeat match goal with
  | |- context [in_bounds WIDTH HEIGHT ?r ?c] =>
      first [ rewrite (in_bounds_true WIDTH HEIGHT r c) by lia
            | rewrite (in_bounds_false WIDTH HEIGHT r c) by lia ]
  end.

Lemma naive_cell_full b r c :
  2 ≤ WIDTH → 2 ≤ HEIGHT →
  (∀ r' c', 0 ≤ r' < HEIGHT → 0 ≤ c' < WIDTH → cell b r' c' = 1) →
  0 ≤ r < HEIGHT → 0 ≤ c < WIDTH →
  naive_cell WIDTH HEIGHT b r c
  = if bool_decide ((r = 0 ∨ r = HEIGHT-1) ∧ (c = 0 ∨ c = WIDTH-1)) then 1 else 0.
Proof.
  intros HW HH Hfull Hr Hc.
  unfold naive_cell, naive_count.
  rewrite !naive_nb_full, (Hfull r c) by done.
  assert (r = 0 ∨ r = HEIGHT-1 ∨ 1 ≤ r < HEIGHT-1) as Hrow by lia.
  assert (c = 0 ∨ c = WIDTH-1 ∨ 1 ≤ c < WIDTH-1) as Hcol by lia.
  destruct Hrow as [Hrow|[Hrow|Hrow]], Hcol as [Hcol|[Hcol|Hcol]];
    decide_bounds; simpl;
    first [ rewrite bool_decide_eq_true_2 by lia
          | rewrite bool_decide_eq_false_2 by lia ];
    reflexivity.
Qed.

End NaiveBoards.

(** ** The cells of the output *)

(** On a board at least as high as wide, with 0/1 cells in [prv] and a
    separate output buffer: the run finishes, [prv] is intact, every cell but
    the bottom-left corner of a non-square board holds the reference value,
    and that corner holds what the buffer held. *)
Lemma Avery_cells WIDTH HEIGHT prv nxt s B N0 :
  2 ≤ WIDTH ≤ HEIGHT → prv ≠ nxt →
  mem s !! prv = Some B → shape WIDTH HEIGHT B → binary B →
  mem s !! nxt = Some N0 → shape WIDTH HEIGHT N0 →
  ∃ s' N,
    Avery WIDTH HEIGHT prv nxt s = Done tt s' ∧
    mem s' = <[nxt := N]> (mem s) ∧ shape WIDTH HEIGHT N ∧
    (∀ r c, 0 ≤ r < HEIGHT → 0 ≤ c < WIDTH →
       WIDTH = HEIGHT ∨ ¬ (r = HEIGHT-1 ∧ c = 0) →
       get N r c = Some (naive_cell WIDTH HEIGHT B r c)) ∧
    (WIDTH < HEIGHT → get N (HEIGHT-1) 0 = Some (cell N0 (HEIGHT-1) 0)).
Proof.
  intros HWH Hne Hp HsB HbB Hq HsN.
  destruct (Avery_equals_naive_but_corner WIDTH HEIGHT prv nxt s B N0)
    as (s' & N & Hrun & Hm & HN & Hget); [done..|].
  exists s', N. split; [done|]. split; [done|]. split; [done|]. split; [done|].
  intros Hlt.
  destruct (Avery_leaves_bottom_left_when_high WIDTH HEIGHT prv nxt s B N0)
    as (s'' & Hrun' & Hcell); [lia|done..|].
  rewrite Hrun in Hrun'. injection Hrun' as <-.
  unfold cell_at in Hcell. by rewrite Hm, lookup_insert_eq in Hcell.
Qed.

(** One generation on a square board, as an update of the store. *)
Lemma Avery_square_step n prv nxt s B N0 :
  2 ≤ n → prv ≠ nxt →
  mem s !! prv = Some B → shape n n B → binary B →
  mem s !! nxt = Some N0 → shape n n N0 →
  ∃ s', Avery n n prv nxt s = Done tt s' ∧
        mem s' = <[nxt := naive n n B]> (mem s).
Proof.
  intros Hn Hne Hp HsB HbB Hq HsN.
  destruct (Avery_cells n n prv nxt s B N0)
    as (s' & N & Hrun & Hm & HN & Hget & _); [lia|done..|].
  assert (N = naive n n B) as ->.
  { apply (board_ext n n); [done|apply shape_naive|].
    intros r c Hr Hc. rewrite get_naive by done. apply Hget; (done || by left). }
  by exists s'.
Qed.

Lemma binary_naive WIDTH HEIGHT b : binary (naive WIDTH HEIGHT b).
Proof.
  unfold binary, naive. apply Forall_fmap, Forall_forall. intros r _. simpl.
  apply Forall_fmap, Forall_forall. intros c _. simpl.
  apply naive_cell_binary.
Qed.

(** Tactics for concrete boards. *)
Ltac board_binary :=
  unfold binary;
  repeat first [apply Forall_nil_2 | apply Forall_cons_2];
  ((by left) || (by right)).

Ltac board_shape := split; [reflexivity | repeat constructor].

(** Case analysis over the cells of a concrete board of three columns and
    four rows. *)
Ltac each_cell r c :=
  let Hr := fresh in let Hc := fresh in
  assert (r = 0 ∨ r = 1 ∨ r = 2 ∨ r = 3) as Hr by lia;
  assert (c = 0 ∨ c = 1 ∨ c = 2) as Hc by lia;
  destruct Hr as [-> | [-> | [-> | ->]]], Hc as [-> | [-> | ->]].



(** X1. For buffers of the declared dimensions: when 2 <= WIDTH <= HEIGHT
    the run returns and every access it made, read or write, is on the
    board; for any other dimensions the run reaches an access whose index
    is off the board. *)
Theorem Avery_on_board_exactly_from_two WIDTH HEIGHT prv nxt s bp bq :
  mem s !! prv = Some bp → shape WIDTH HEIGHT bp →
  mem s !! nxt = Some bq → shape WIDTH HEIGHT bq →
  (2 ≤ WIDTH ≤ HEIGHT →
     ∃ s' acc, Avery WIDTH HEIGHT prv nxt s = Done tt s' ∧
               trace s' = acc ++ trace s ∧
               Forall (access_ok WIDTH HEIGHT) acc) ∧
  (¬ (2 ≤ WIDTH ≤ HEIGHT) →
     ∃ a, Avery WIDTH HEIGHT prv nxt s = Fault a ∧ ¬ access_ok WIDTH HEIGHT a).
Proof.
  intros Hp Hsp Hq Hsq. split.
  - intros HWH.
    destruct (Avery_safe_from_two WIDTH HEIGHT prv nxt (trace s) HWH s)
      as ([] & s' & Hrun & _ & _ & acc & Ht & Hok & _).
    { split; [eauto|]. split; [eauto|]. exists []. split; [done|].
      split; [constructor|done]. }
    by exists s', acc.
  - intros Hdim.
    destruct (decide (WIDTH ≤ 1 ∨ HEIGHT ≤ 0)) as [Hsmall|Hbig].
    { exists (Read prv 0 1). split; [by apply Avery_faults_when_narrow|].
      simpl. lia. }
    destruct (decide (HEIGHT = 1)) as [H1|H1].
    { exists (Read prv 1 1).
      split; [apply (Avery_faults_when_flat WIDTH HEIGHT prv nxt s bp); (done || lia)|].
      simpl. lia. }
    exists (Read prv (WIDTH-1) 0).
    split; [apply (Avery_faults_when_wide WIDTH HEIGHT prv nxt s bp bq); (done || lia)|].
    simpl. lia.
Qed.

Lemma Avery_on_board_exactly_from_two_witness :
  (∃ s' acc, Avery 2 3 1 2 (store [[1;1]; [1;0]; [0;1]] [[0;0]; [0;0]; [0;0]])
               = Done tt s' ∧
             trace s' = acc ++ trace (store [[1;1]; [1;0]; [0;1]]
                                            [[0;0]; [0;0]; [0;0]]) ∧
             Forall (access_ok 2 3) acc) ∧
  (∃ a, Avery 4 3 1 2 (store dead43 dead43) = Fault a ∧ ¬ access_ok 4 3 a).
Proof.
  split.
  - apply (Avery_on_board_exactly_from_two 2 3 1 2
             (store [[1;1]; [1;0]; [0;1]] [[0;0]; [0;0]; [0;0]])
             [[1;1]; [1;0]; [0;1]] [[0;0]; [0;0]; [0;0]]).
    + reflexivity.
    + board_shape.
    + reflexivity.
    + board_shape.
    + lia.
  - apply (Avery_on_board_exactly_from_two 4 3 1 2
             (store dead43 dead43) dead43 dead43).
    + reflexivity.
    + board_shape.
    + reflexivity.
    + board_shape.
    + lia.
Defined.

(** X2. The whole output for 2 <= WIDTH <= HEIGHT, 0/1 cells in [prv] and a
    separate output buffer: the run finishes, only [nxt] changes, and each
    cell of the new board holds the naive reference value, except the
    bottom-left corner of a board higher than wide, which keeps the value
    the buffer held before the call. *)
Theorem Avery_output_when_high WIDTH HEIGHT prv nxt s B N0 :
  2 ≤ WIDTH ≤ HEIGHT → prv ≠ nxt →
  mem s !! prv = Some B → shape WIDTH HEIGHT B → binary B →
  mem s !! nxt = Some N0 → shape WIDTH HEIGHT N0 →
  ∃ s' N,
    Avery WIDTH HEIGHT prv nxt s = Done tt s' ∧
    mem s' = <[nxt := N]> (mem s) ∧ shape WIDTH HEIGHT N ∧
    ∀ r c, 0 ≤ r < HEIGHT → 0 ≤ c < WIDTH →
      get N r c =
        Some (if bool_decide (WIDTH < HEIGHT ∧ r = HEIGHT-1 ∧ c = 0)
              then cell N0 r c
              else naive_cell WIDTH HEIGHT B r c).
Proof.
  intros HWH Hne Hp HsB HbB Hq HsN.
  destruct (Avery_cells WIDTH HEIGHT prv nxt s B N0)
    as (s' & N & Hrun & Hm & HN & Hget & Hcorner); [done..|].
  exists s', N. split; [done|]. split; [done|]. split; [done|].
  intros r c Hr Hc. case_bool_decide as Hrc.
  - destruct Hrc as [Hlt [-> ->]]. by apply Hcorner.
  - apply Hget; [done..|].
    destruct (decide (WIDTH = HEIGHT)) as [Heq|Hneq]; [by left|].
    right. intros [-> ->]. apply Hrc. split; [lia|done].
Qed.

Lemma Avery_output_when_high_witness :
  2 ≤ 3 ≤ 4 ∧ (1 ≠ 2)%positive ∧
  ∃ s' N,
    Avery 3 4 1 2 (store ell34 stale34) = Done tt s' ∧
    mem s' = <[2%positive := N]> (mem (store ell34 stale34)) ∧ shape 3 4 N ∧
    ∀ r c, 0 ≤ r < 4 → 0 ≤ c < 3 →
      get N r c =
        Some (if bool_decide (3 < 4 ∧ r = 4-1 ∧ c = 0)
              then cell stale34 r c
              else naive_cell 3 4 ell34 r c).
Proof.
  split; [lia|]. split; [discriminate|].
  apply (Avery_output_when_high 3 4 1 2 (store ell34 stale34) ell34 stale34).
  - lia.
  - discriminate.
  - reflexivity.
  - board_shape.
  - board_binary.
  - reflexivity.
  - board_shape.
Defined.

(** X3. On a square board (WIDTH = HEIGHT = n >= 2), whatever the two
    buffers hold and whether or not they are the same buffer, [Avery] writes
    every cell of the board exactly once and writes no other cell. *)
Theorem Avery_writes_each_cell_once n prv nxt s bp bq :
  2 ≤ n →
  mem s !! prv = Some bp → shape n n bp →
  mem s !! nxt = Some bq → shape n n bq →
  ∃ s' acc,
    Avery n n prv nxt s = Done tt s' ∧ trace s' = acc ++ trace s ∧
    ∀ r c, times (r, c) (writes_of acc)
           = if bool_decide (0 ≤ r < n ∧ 0 ≤ c < n) then 1%nat else 0%nat.
Proof. apply Avery_writes_tile_square. Qed.

Lemma Avery_writes_each_cell_once_witness :
  2 ≤ 3 ∧
  ∃ s' acc,
    Avery 3 3 1 2 (store blinker33 dead33) = Done tt s' ∧
    trace s' = acc ++ trace (store blinker33 dead33) ∧
    ∀ r c, times (r, c) (writes_of acc)
           = if bool_decide (0 ≤ r < 3 ∧ 0 ≤ c < 3) then 1%nat else 0%nat.
Proof.
  split; [lia|].
  apply (Avery_writes_each_cell_once 3 1 2 (store blinker33 dead33) blinker33 dead33).
  - lia.
  - reflexivity.
  - board_shape.
  - reflexivity.
  - board_shape.
Defined.

(** X4. Two generations with the buffers swapped, on a square board of 0/1
    cells: both runs finish, the first leaves the next generation in [q] and
    the second leaves the generation after it in [p]. *)
Theorem Avery_two_generations n p q s B N0 :
  2 ≤ n → p ≠ q →
  mem s !! p = Some B → shape n n B → binary B →
  mem s !! q = Some N0 → shape n n N0 →
  ∃ s1 s2,
    Avery n n p q s = Done tt s1 ∧
    Avery n n q p s1 = Done tt s2 ∧
    mem s2 = <[p := naive n n (naive n n B)]> (<[q := naive n n B]> (mem s)).
Proof.
  intros Hn Hne Hp HsB HbB Hq HsN.
  destruct (Avery_square_step n p q s B N0) as (s1 & Hrun1 & Hm1); [done..|].
  destruct (Avery_square_step n q p s1 (naive n n B) B) as (s2 & Hrun2 & Hm2).
  - done.
  - done.
  - by rewrite Hm1, lookup_insert_eq.
  - apply shape_naive.
  - apply binary_naive.
  - by rewrite Hm1, lookup_insert_ne.
  - done.
  - exists s1, s2. split; [done|]. split; [done|]. by rewrite Hm2, Hm1.
Qed.

Lemma Avery_two_generations_witness :
  2 ≤ 3 ∧ (1 ≠ 2)%positive ∧
  ∃ s1 s2,
    Avery 3 3 1 2 (store blinker33 dead33) = Done tt s1 ∧
    Avery 3 3 2 1 s1 = Done tt s2 ∧
    mem s2 = <[1%positive := naive 3 3 (naive 3 3 blinker33)]>
               (<[2%positive := naive 3 3 blinker33]>
                  (mem (store blinker33 dead33))).
Proof.
  split; [lia|]. split; [discriminate|].
  apply (Avery_two_generations 3 1 2 (store blinker33 dead33) blinker33 dead33).
  - lia.
  - discriminate.
  - reflexivity.
  - board_shape.
  - board_binary.
  - reflexivity.
  - board_shape.
Defined.

(** X5. Locality, for 2 <= WIDTH <= HEIGHT: if two previous boards of 0/1
    cells agree on the cells of the board at distance at most one from
    [(r, c)], the outputs of the two runs agree at [(r, c)]; for the
    bottom-left corner of a board higher than wide, which no statement
    writes, they agree when the two output buffers agreed there. *)
Theorem Avery_local WIDTH HEIGHT prv nxt s1 s2 B1 B2 N1 N2 r c :
  2 ≤ WIDTH ≤ HEIGHT → prv ≠ nxt →
  mem s1 !! prv = Some B1 → shape WIDTH HEIGHT B1 → binary B1 →
  mem s1 !! nxt = Some N1 → shape WIDTH HEIGHT N1 →
  mem s2 !! prv = Some B2 → shape WIDTH HEIGHT B2 → binary B2 →
  mem s2 !! nxt = Some N2 → shape WIDTH HEIGHT N2 →
  0 ≤ r < HEIGHT → 0 ≤ c < WIDTH →
  (∀ r' c', r-1 ≤ r' ≤ r+1 → c-1 ≤ c' ≤ c+1 →
            0 ≤ r' < HEIGHT → 0 ≤ c' < WIDTH → cell B1 r' c' = cell B2 r' c') →
  (WIDTH < HEIGHT → r = HEIGHT-1 → c = 0 → cell N1 r c = cell N2 r c) →
  ∃ s1' s2',
    Avery WIDTH HEIGHT prv nxt s1 = Done tt s1' ∧
    Avery WIDTH HEIGHT prv nxt s2 = Done tt s2' ∧
    cell_at nxt r c s1' = cell_at nxt r c s2'.
Proof.
  intros HWH Hne Hp1 HsB1 HbB1 Hq1 HsN1 Hp2 HsB2 HbB2 Hq2 HsN2 Hr Hc Hwin Hbuf.
  destruct (Avery_cells WIDTH HEIGHT prv nxt s1 B1 N1)
    as (s1' & M1 & Hrun1 & Hm1 & _ & Hget1 & Hcorner1); [done..|].
  destruct (Avery_cells WIDTH HEIGHT prv nxt s2 B2 N2)
    as (s2' & M2 & Hrun2 & Hm2 & _ & Hget2 & Hcorner2); [done..|].
  exists s1', s2'. split; [done|]. split; [done|].
  unfold cell_at. rewrite Hm1, Hm2, !lookup_insert_eq. simpl.
  destruct (decide (WIDTH < HEIGHT ∧ r = HEIGHT-1 ∧ c = 0)) as [[Hlt [-> ->]]|Hrc].
  - rewrite Hcorner1, Hcorner2 by done. f_equal. by apply Hbuf.
  - assert (WIDTH = HEIGHT ∨ ¬ (r = HEIGHT-1 ∧ c = 0)) as Hoff.
    { destruct (decide (WIDTH = HEIGHT)) as [Heq|Hneq]; [by left|].
      right. intros [-> ->]. apply Hrc. split; [lia|done]. }
    rewrite Hget1, Hget2 by done. f_equal.
    by apply naive_cell_local.
Qed.

Lemma Avery_local_witness :
  2 ≤ 3 ≤ 4 ∧ (1 ≠ 2)%positive ∧ 0 ≤ 0 < 4 ∧ 0 ≤ 0 < 3 ∧
  ∃ s1' s2',
    Avery 3 4 1 2 (store ell34 stale34) = Done tt s1' ∧
    Avery 3 4 1 2 (store dead34 dead34) = Done tt s2' ∧
    cell_at 2 0 0 s1' = cell_at 2 0 0 s2'.
Proof.
  split; [lia|]. split; [discriminate|]. split; [lia|]. split; [lia|].
  apply (Avery_local 3 4 1 2 (store ell34 stale34) (store dead34 dead34)
           ell34 dead34 stale34 dead34 0 0).
  - lia.
  - discriminate.
  - reflexivity.
  - board_shape.
  - board_binary.
  - reflexivity.
  - board_shape.
  - reflexivity.
  - board_shape.
  - board_binary.
  - reflexivity.
  - board_shape.
  - lia.
  - lia.
  - intros r' c' Hr' Hc' Hr'' Hc''. each_cell r' c'; (reflexivity || lia).
  - intros Hlt Hr Hc. lia.
Defined.

(** X6. The boards stay 0/1, for 2 <= WIDTH <= HEIGHT: from a previous
    board of 0/1 cells and a separate output buffer (itself 0/1 when the
    board is higher than wide), [Avery] finishes with a 0/1 board of the
    declared dimensions in [nxt] and the previous board untouched. *)
Theorem Avery_keeps_boards_binary WIDTH HEIGHT prv nxt s B N0 :
  2 ≤ WIDTH ≤ HEIGHT → prv ≠ nxt →
  mem s !! prv = Some B → shape WIDTH HEIGHT B → binary B →
  mem s !! nxt = Some N0 → shape WIDTH HEIGHT N0 →
  WIDTH = HEIGHT ∨ binary N0 →
  ∃ s' N,
    Avery WIDTH HEIGHT prv nxt s = Done tt s' ∧
    mem s' !! prv = Some B ∧
    mem s' !! nxt = Some N ∧ shape WIDTH HEIGHT N ∧ binary N.
Proof.
  intros HWH Hne Hp HsB HbB Hq HsN Hold.
  destruct (Avery_cells WIDTH HEIGHT prv nxt s B N0)
    as (s' & N & Hrun & Hm & HN & Hget & Hcorner); [done..|].
  exists s', N. split; [done|].
  split; [by rewrite Hm, lookup_insert_ne|].
  split; [by rewrite Hm, lookup_insert_eq|]. split; [done|].
  apply (binary_of_cells WIDTH HEIGHT); [done|].
  intros r c Hr Hc. unfold cell.
  destruct (decide (WIDTH < HEIGHT ∧ r = HEIGHT-1 ∧ c = 0)) as [[Hlt [-> ->]]|Hrc].
  - rewrite Hcorner by done. simpl. apply cell_binary.
    destruct Hold as [Heq|Hbin]; [lia|done].
  - rewrite Hget; [apply naive_cell_binary|done..|].
    destruct (decide (WIDTH = HEIGHT)) as [Heq|Hneq]; [by left|].
    right. intros [-> ->]. apply Hrc. split; [lia|done].
Qed.

Lemma Avery_keeps_boards_binary_witness :
  2 ≤ 3 ≤ 4 ∧ (1 ≠ 2)%positive ∧
  ∃ s' N,
    Avery 3 4 1 2 (store ell34 stale34) = Done tt s' ∧
    mem s' !! 1%positive = Some ell34 ∧
    mem s' !! 2%positive = Some N ∧ shape 3 4 N ∧ binary N.
Proof.
  split; [lia|]. split; [discriminate|].
  apply (Avery_keeps_boards_binary 3 4 1 2 (store ell34 stale34) ell34 stale34).
  - lia.
  - discriminate.
  - reflexivity.
  - board_shape.
  - board_binary.
  - reflexivity.
  - board_shape.
  - right. board_binary.
Defined.

(** X7. For 2 <= WIDTH <= HEIGHT: from a previous board with no live cell,
    every cell [Avery] writes is dead (all cells of the output but the
    bottom-left corner of a board higher than wide). *)
Theorem Avery_dead_board_stays_dead WIDTH HEIGHT prv nxt s B N0 :
  2 ≤ WIDTH ≤ HEIGHT → prv ≠ nxt →
  mem s !! prv = Some B → shape WIDTH HEIGHT B →
  (∀ r c, 0 ≤ r < HEIGHT → 0 ≤ c < WIDTH → cell B r c = 0) →
  mem s !! nxt = Some N0 → shape WIDTH HEIGHT N0 →
  ∃ s',
    Avery WIDTH HEIGHT prv nxt s = Done tt s' ∧
    ∀ r c, 0 ≤ r < HEIGHT → 0 ≤ c < WIDTH →
      WIDTH = HEIGHT ∨ ¬ (r = HEIGHT-1 ∧ c = 0) →
      cell_at nxt r c s' = Some 0.
Proof.
  intros HWH Hne Hp HsB Hdead Hq HsN.
  assert (binary B) as HbB.
  { apply (binary_of_cells WIDTH HEIGHT); [done|].
    intros r c Hr Hc. left. by apply Hdead. }
  destruct (Avery_cells WIDTH HEIGHT prv nxt s B N0)
    as (s' & N & Hrun & Hm & _ & Hget & _); [done..|].
  exists s'. split; [done|]. intros r c Hr Hc Hoff.
  unfold cell_at. rewrite Hm, lookup_insert_eq. simpl.
  rewrite Hget by done. f_equal. by apply naive_cell_dead.
Qed.

Lemma Avery_dead_board_stays_dead_witness :
  2 ≤ 3 ≤ 4 ∧ (1 ≠ 2)%positive ∧
  ∃ s',
    Avery 3 4 1 2 (store dead34 stale34) = Done tt s' ∧
    ∀ r c, 0 ≤ r < 4 → 0 ≤ c < 3 → 3 = 4 ∨ ¬ (r = 4-1 ∧ c = 0) →
      cell_at 2 r c s' = Some 0.
Proof.
  split; [lia|]. split; [discriminate|].
  apply (Avery_dead_board_stays_dead 3 4 1 2 (store dead34 stale34) dead34 stale34).
  - lia.
  - discriminate.
  - reflexivity.
  - board_shape.
  - intros r c Hr Hc. each_cell r c; reflexivity.
  - reflexivity.
  - board_shape.
Defined.

(** X8. For 2 <= WIDTH <= HEIGHT: from a previous board with exactly one
    live cell, every cell [Avery] writes is dead (all cells of the output but
    the bottom-left corner of a board higher than wide). *)
Theorem Avery_single_cell_dies WIDTH HEIGHT prv nxt s B N0 r0 c0 :
  2 ≤ WIDTH ≤ HEIGHT → prv ≠ nxt →
  mem s !! prv = Some B → shape WIDTH HEIGHT B →
  0 ≤ r0 < HEIGHT → 0 ≤ c0 < WIDTH → cell B r0 c0 = 1 →
  (∀ r c, 0 ≤ r < HEIGHT → 0 ≤ c < WIDTH → ¬ (r = r0 ∧ c = c0) →
          cell B r c = 0) →
  mem s !! nxt = Some N0 → shape WIDTH HEIGHT N0 →
  ∃ s',
    Avery WIDTH HEIGHT prv nxt s = Done tt s' ∧
    ∀ r c, 0 ≤ r < HEIGHT → 0 ≤ c < WIDTH →
      WIDTH = HEIGHT ∨ ¬ (r = HEIGHT-1 ∧ c = 0) →
      cell_at nxt r c s' = Some 0.
Proof.
  intros HWH Hne Hp HsB Hr0 Hc0 Hlive Hrest Hq HsN.
  assert (binary B) as HbB.
  { apply (binary_of_cells WIDTH HEIGHT); [done|].
    intros r c Hr Hc.
    destruct (decide (r = r0 ∧ c = c0)) as [[-> ->]|Hrc];
      [by right | left; by apply Hrest]. }
  destruct (Avery_cells WIDTH HEIGHT prv nxt s B N0)
    as (s' & N & Hrun & Hm & _ & Hget & _); [done..|].
  exists s'. split; [done|]. intros r c Hr Hc Hoff.
  unfold cell_at. rewrite Hm, lookup_insert_eq. simpl.
  rewrite Hget by done. f_equal. by apply (naive_cell_single _ _ _ r0 c0).
Qed.

Lemma Avery_single_cell_dies_witness :
  2 ≤ 3 ≤ 4 ∧ (1 ≠ 2)%positive ∧ 0 ≤ 0 < 4 ∧ 0 ≤ 2 < 3 ∧
  ∃ s',
    Avery 3 4 1 2 (store single34' stale34) = Done tt s' ∧
    ∀ r c, 0 ≤ r < 4 → 0 ≤ c < 3 → 3 = 4 ∨ ¬ (r = 4-1 ∧ c = 0) →
      cell_at 2 r c s' = Some 0.
Proof.
  split; [lia|]. split; [discriminate|]. split; [lia|]. split; [lia|].
  apply (Avery_single_cell_dies 3 4 1 2 (store single34' stale34)
           single34' stale34 0 2).
  - lia.
  - discriminate.
  - reflexivity.
  - board_shape.
  - lia.
  - lia.
  - reflexivity.
  - intros r c Hr Hc Hne. each_cell r c; (reflexivity || (exfalso; apply Hne; lia)).
  - reflexivity.
  - board_shape.
Defined.

(** X9. For 2 <= WIDTH <= HEIGHT: from a previous board with every cell
    alive, the cells [Avery] writes are alive exactly at the corners of the
    board (a corner has three neighbours, an edge cell five, an interior
    cell eight). *)
Theorem Avery_full_board_keeps_corners WIDTH HEIGHT prv nxt s B N0 :
  2 ≤ WIDTH ≤ HEIGHT → prv ≠ nxt →
  mem s !! prv = Some B → shape WIDTH HEIGHT B →
  (∀ r c, 0 ≤ r < HEIGHT → 0 ≤ c < WIDTH → cell B r c = 1) →
  mem s !! nxt = Some N0 → shape WIDTH HEIGHT N0 →
  ∃ s',
    Avery WIDTH HEIGHT prv nxt s = Done tt s' ∧
    ∀ r c, 0 ≤ r < HEIGHT → 0 ≤ c < WIDTH →
      WIDTH = HEIGHT ∨ ¬ (r = HEIGHT-1 ∧ c = 0) →
      cell_at nxt r c s' =
        Some (if bool_decide ((r = 0 ∨ r = HEIGHT-1) ∧ (c = 0 ∨ c = WIDTH-1))
              then 1 else 0).
Proof.
  intros HWH Hne Hp HsB Hfull Hq HsN.
  assert (binary B) as HbB.
  { apply (binary_of_cells WIDTH HEIGHT); [done|].
    intros r c Hr Hc. right. by apply Hfull. }
  destruct (Avery_cells WIDTH HEIGHT prv nxt s B N0)
    as (s' & N & Hrun & Hm & _ & Hget & _); [done..|].
  exists s'. split; [done|]. intros r c Hr Hc Hoff.
  unfold cell_at. rewrite Hm, lookup_insert_eq. simpl.
  rewrite Hget by done. f_equal. apply naive_cell_full; (done || lia).
Qed.

Lemma Avery_full_board_keeps_corners_witness :
  2 ≤ 3 ≤ 4 ∧ (1 ≠ 2)%positive ∧
  ∃ s',
    Avery 3 4 1 2 (store full34 dead34) = Done tt s' ∧
    ∀ r c, 0 ≤ r < 4 → 0 ≤ c < 3 → 3 = 4 ∨ ¬ (r = 4-1 ∧ c = 0) →
      cell_at 2 r c s' =
        Some (if bool_decide ((r = 0 ∨ r = 4-1) ∧ (c = 0 ∨ c = 3-1))
              then 1 else 0).
Proof.
  split; [lia|]. split; [discriminate|].
  apply (Avery_full_board_keeps_corners 3 4 1 2 (store full34 dead34) full34 dead34).
  - lia.
  - discriminate.
  - reflexivity.
  - board_shape.
  - intros r c Hr Hc. each_cell r c; reflexivity.
  - reflexivity.
  - board_shape.
Defined.
